(** * Sidebar menu: selection and deletion workflow

    A shallow embedding of the selection controller and of the single and
    bulk deletion handlers of [app/components/sidebar/Menu.client.tsx].

    The React component keeps its state in [useState] cells; the handlers
    read the cells of the current render and queue updates.  Here the cells
    are the fields of one record, a handler is a computation in a small
    state-and-exception monad over that record, and every observable call
    to a collaborator (toast, console, localStorage, the chat store,
    window.location) is appended to a log kept in the same record.

    Scope of the model.  A handler runs to completion before the next event
    is taken: the [await] points inside [deleteSelectedItems] and the
    promise chain of [deleteItem] are not interleaved with other events.
    The one asynchronous step that is kept apart is the completion of
    [getAll] in [loadEntries], which the handlers never wait for.  Rendering,
    the settings panel, duplication and export are left out. *)

From Stdlib Require Import DecimalString.
From stdpp Require Import base list gmap strings sets.

Set Warnings "-clear-no-such-hyp".



(** ** Data model *)

(** Modelled from the spec: the type [ChatHistoryItem] is declared in
    [~/lib/persistence], which is not among the sources.  An entry has a
    unique identifier, a URL-safe identifier and a description (both needed
    for display, and tested for presence by [loadEntries]) and a timestamp. *)
Record ChatHistoryItem := {
  item_id : string;
  item_urlId : option string;
  item_description : option string;
  item_timestamp : string;
}.

#[global] Instance ChatHistoryItem_eq_dec : EqDecision ChatHistoryItem.
Proof. solve_decision. Defined.

(** JavaScript truthiness of an optional string: present and not empty. *)
Definition truthy (o : option string) : bool :=
  match o with
  | Some s => negb (String.eqb s "")
  | None => false
  end.

(** [type DialogContent = {type:'delete',item} | {type:'bulkDelete',items} | null] *)
Inductive DialogContent :=
| dialog_null
| dialog_delete (item : ChatHistoryItem)
| dialog_bulkDelete (items : list ChatHistoryItem).

(** A thrown JavaScript [Error]; only its [message] is ever read. *)
Record Error := { message : string }.

(** How a promise (or a call that may throw) ends. *)
Inductive Outcome (A : Type) :=
| Resolved (a : A)
| Rejected (e : Error).
Arguments Resolved {A} a.
Arguments Rejected {A} e.

(** ** Array helpers as the handlers use them *)

(** [arr.includes(x)] on an array of strings. *)
Definition includes (arr : list string) (x : string) : bool :=
  bool_decide (x ∈ arr).

(** [Set.prototype.add] on the insertion-ordered contents of a [Set]. *)
Definition set_add (seen : list string) (x : string) : list string :=
  if includes seen x then seen else seen ++ [x].

(** [[...new Set(arr)]]: the distinct elements of [arr], each at the
    position of its first occurrence. *)
Definition array_from_set (arr : list string) : list string :=
  fold_left set_add arr [].

(** ** Selection controller: the functional updates *)

(** The updater passed to [setSelectedItems] by [toggleItemSelection]. *)
Definition toggleItemSelection_update (id : string) (prev : list string)
  : list string :=
  if includes prev id
  then filter (λ itemId, itemId ≠ id) prev
  else prev ++ [id].

(** The updater passed to [setSelectedItems] by [selectAll]. *)
Definition selectAll_update (allFilteredIds prev : list string)
  : list string :=
  let allFilteredAreSelected :=
    bool_decide (0 < length allFilteredIds)
    && forallb (λ id, includes prev id) allFilteredIds in
  if allFilteredAreSelected
  then filter (λ id, negb (includes allFilteredIds id) = true) prev
  else array_from_set (prev ++ allFilteredIds).

(** The set of identifiers held by a selection array. *)
Definition ids_of (arr : list string) : gset string := list_to_set arr.

(** ** Collaborators

    The chat store, the browser's localStorage and the search hook are not
    part of this component; they are taken as interfaces, with the
    operations the spec lists for them.  A store call returns the store as
    the call leaves it together with the way the call ends, so that an
    implementation may fail for any identifier and at any moment. *)

(** [getAll(db)] and [deleteById(db, id)] of [~/lib/persistence]. *)
Class ChatStore (Store : Type) := {
  getAll : Store → Outcome (list ChatHistoryItem);
  deleteById : Store → string → Store * Outcome unit;
}.

(** [localStorage.removeItem(key)]; the call may throw. *)
Class WebStorage (Storage : Type) := {
  removeItem : Storage → string → Storage * Outcome unit;
}.

(** [useSearchFilter({ items, searchFields: ['description'] })]: the
    visible items for a search text. *)
Class SearchFilter := {
  filteredItems : string → list ChatHistoryItem → list ChatHistoryItem;
}.

(** The calls to collaborators that the handlers make, in the order they
    are made. *)
Inductive Effect :=
| toast_success (msg : string)
| toast_error (msg : string)
| toast_warning (msg : string)
| toast_info (msg : string)
| console_error (msg : string) (e : Error)
| call_removeItem (key : string)
| call_deleteById (id : string)
| call_getAll
| set_location_pathname (path : string).

#[global] Instance Error_eq_dec : EqDecision Error.
Proof. solve_decision. Defined.

#[global] Instance Effect_eq_dec : EqDecision Effect.
Proof. solve_decision. Defined.

Definition is_toast (e : Effect) : bool :=
  match e with
  | toast_success _ | toast_error _ | toast_warning _ | toast_info _ => true
  | _ => false
  end.

Definition is_navigation (e : Effect) : bool :=
  match e with set_location_pathname _ => true | _ => false end.

(** The template literal [`${n}`] for a count. *)
Definition show (n : nat) : string := NilZero.string_of_uint (Nat.to_uint n).

(** How a handler, or a part of one, ends. *)
Inductive Completion (A : Type) :=
| Normal (a : A)
| Thrown (e : Error).
Arguments Normal {A} a.
Arguments Thrown {A} e.

(** ** Component state *)

Section Menu.
Context {Store Storage : Type}.
Context {CS : ChatStore Store} {WS : WebStorage Storage} {SF : SearchFilter}.

(** The [useState] cells of [Menu] that the workflow touches, the ambient
    values it reads ([db], [chatId], [localStorage]), the [getAll] promises
    that have been issued and not yet settled, and the log of effects.
    A setter replaces one field and keeps the others.  [st_db] tells
    whether the module constant [db] is defined; [st_store] is what the
    database then holds. *)
Record State := mkState {
  st_list : list ChatHistoryItem;
  st_open : bool;
  st_dialogContent : DialogContent;
  st_selectionMode : bool;
  st_selectedItems : list string;
  st_searchQuery : string;
  st_db : bool;
  st_store : Store;
  st_localStorage : Storage;
  st_chatId : option string;
  st_pending : list (Outcome (list ChatHistoryItem));
  st_log : list Effect;
}.

Definition setList (v : list ChatHistoryItem) (st : State) : State :=
  let 'mkState _ o d m sel q db store ls chat pend log := st in
  mkState v o d m sel q db store ls chat pend log.

Definition setOpen (v : bool) (st : State) : State :=
  let 'mkState l _ d m sel q db store ls chat pend log := st in
  mkState l v d m sel q db store ls chat pend log.

Definition setDialogContent (v : DialogContent) (st : State) : State :=
  let 'mkState l o _ m sel q db store ls chat pend log := st in
  mkState l o v m sel q db store ls chat pend log.

Definition setSelectionMode (v : bool) (st : State) : State :=
  let 'mkState l o d _ sel q db store ls chat pend log := st in
  mkState l o d v sel q db store ls chat pend log.

Definition setSelectedItems (v : list string) (st : State) : State :=
  let 'mkState l o d m _ q db store ls chat pend log := st in
  mkState l o d m v q db store ls chat pend log.

Definition setSearchQuery (v : string) (st : State) : State :=
  let 'mkState l o d m sel _ db store ls chat pend log := st in
  mkState l o d m sel v db store ls chat pend log.

Definition put_store (v : Store) (st : State) : State :=
  let 'mkState l o d m sel q db _ ls chat pend log := st in
  mkState l o d m sel q db v ls chat pend log.

Definition put_localStorage (v : Storage) (st : State) : State :=
  let 'mkState l o d m sel q db store _ chat pend log := st in
  mkState l o d m sel q db store v chat pend log.

Definition put_pending (v : list (Outcome (list ChatHistoryItem)))
    (st : State) : State :=
  let 'mkState l o d m sel q db store ls chat _ log := st in
  mkState l o d m sel q db store ls chat v log.

Definition put_log (v : list Effect) (st : State) : State :=
  let 'mkState l o d m sel q db store ls chat pend _ := st in
  mkState l o d m sel q db store ls chat pend v.

(** The component as first rendered: every cell at its [useState] default,
    nothing issued, nothing logged. *)
Definition initial (db : bool) (store : Store) (storage : Storage)
    (chat : option string) : State :=
  mkState [] false dialog_null false [] "" db store storage chat [] [].

(** ** The handler monad: state, effects log and thrown errors *)

Definition M (A : Type) : Type := State → Completion A * State.

#[global] Instance M_ret : MRet M := λ A a st, (Normal a, st).

#[global] Instance M_bind : MBind M := λ A B k m st,
  match m st with
  | (Normal a, st') => k a st'
  | (Thrown e, st') => (Thrown e, st')
  end.

Definition get : M State := λ st, (Normal st, st).

Definition modify (f : State → State) : M unit := λ st, (Normal (), f st).

Definition throw {A} (e : Error) : M A := λ st, (Thrown e, st).

(** [try { body } catch (e) { handler e }]: what [body] did before it
    threw stays done. *)
Definition try_catch {A} (body : M A) (handler : Error → M A) : M A :=
  λ st,
    match body st with
    | (Normal a, st') => (Normal a, st')
    | (Thrown e, st') => handler e st'
    end.

Definition emit (e : Effect) : M unit :=
  modify (λ st, put_log (st_log st ++ [e]) st).

(** The state a handler leaves behind. *)
Definition exec {A} (m : M A) (st : State) : State := (m st).2.

(** The effects a handler adds to the log of [st]. *)
Definition emitted {A} (m : M A) (st : State) : list Effect :=
  drop (length (st_log st)) (st_log (exec m st)).

(** ** Calls to the collaborators *)

Definition localStorage_removeItem (key : string) : M unit := λ st,
  let st1 := put_log (st_log st ++ [call_removeItem key]) st in
  let r := removeItem (st_localStorage st) key in
  let st2 := put_localStorage r.1 st1 in
  match r.2 with
  | Resolved _ => (Normal (), st2)
  | Rejected e => (Thrown e, st2)
  end.

(** [await deleteById(db, id)] *)
Definition await_deleteById (id : string) : M unit := λ st,
  let st1 := put_log (st_log st ++ [call_deleteById id]) st in
  let r := deleteById (st_store st) id in
  let st2 := put_store r.1 st1 in
  match r.2 with
  | Resolved _ => (Normal (), st2)
  | Rejected e => (Thrown e, st2)
  end.

(** The items [loadEntries] keeps: [item.urlId && item.description]. *)
Definition displayable (item : ChatHistoryItem) : bool :=
  truthy (item_urlId item) && truthy (item_description item).

(** [loadEntries]: issues [getAll(db)] when [db] is defined and returns at
    once; the promise chain runs when the promise settles ([settleLoad]). *)
Definition loadEntries : M unit :=
  st ← get;
  if st_db st
  then emit call_getAll;;
       modify (λ st, put_pending (st_pending st ++ [getAll (st_store st)]) st)
  else mret ().

(** The continuation of the oldest outstanding [getAll] promise:
    [.then(list => list.filter(...)).then(setList).catch(e => toast.error(e.message))]. *)
Definition settleLoad : M unit :=
  st ← get;
  match st_pending st with
  | [] => mret ()
  | outcome :: rest =>
    modify (put_pending rest);;
    match outcome with
    | Resolved list => modify (setList (List.filter displayable list))
    | Rejected error => emit (toast_error (message error))
    end
  end.

(** Every outstanding [getAll] promise settles, oldest first. *)
Definition settleAll (st : State) : State :=
  Nat.iter (length (st_pending st)) (exec settleLoad) st.

(** ** Deletion *)

Definition deleteChat (id : string) : M unit :=
  st ← get;
  if negb (st_db st)
  then throw {| message := "Database not available" |}
  else
    try_catch
      (let snapshotKey := "snapshot:" +:+ id in
       localStorage_removeItem snapshotKey)
      (λ snapshotError,
         emit (console_error ("Error deleting snapshot for chat " +:+ id +:+ ":")
                 snapshotError));;
    await_deleteById id.

(** [deleteItem(event, item)]; the two calls on [event] only concern the
    DOM event and are left out. *)
Definition deleteItem (item : ChatHistoryItem) : M unit :=
  try_catch
    (deleteChat (item_id item);;
     emit (toast_success "Chat deleted successfully");;
     loadEntries;;
     st ← get;
     if bool_decide (st_chatId st = Some (item_id item))
     then emit (set_location_pathname "/")
     else mret ())
    (λ error,
       emit (toast_error "Failed to delete conversation");;
       loadEntries).

(** The local variables of [deleteSelectedItems]. *)
Record Locals := mkLocals {
  deletedCount : nat;
  errors : list string;
  shouldNavigate : bool;
}.

(** The [for (const id of itemsToDeleteIds)] loop. *)
Fixpoint deleteSelectedItems_loop (currentChatId : option string)
    (ids : list string) (v : Locals) : M Locals :=
  match ids with
  | [] => mret v
  | id :: rest =>
    v' ← try_catch
           (deleteChat id;;
            mret (mkLocals (S (deletedCount v)) (errors v)
                    (if bool_decide (Some id = currentChatId) then true
                     else shouldNavigate v)))
           (λ error,
              mret (mkLocals (deletedCount v) (errors v ++ [id])
                      (shouldNavigate v)));
    deleteSelectedItems_loop currentChatId rest v'
  end.

Definition deleteSelectedItems (itemsToDeleteIds : list string) : M unit :=
  st ← get;
  if negb (st_db st) || bool_decide (length itemsToDeleteIds = 0)
  then mret ()
  else
    let currentChatId := st_chatId st in
    v ← deleteSelectedItems_loop currentChatId itemsToDeleteIds
          (mkLocals 0 [] false);
    (if bool_decide (length (errors v) = 0)
     then emit (toast_success
                  (show (deletedCount v) +:+ " chat"
                   +:+ (if bool_decide (deletedCount v = 1) then "" else "s")
                   +:+ " deleted successfully"))
     else emit (toast_warning
                  ("Deleted " +:+ show (deletedCount v) +:+ " of "
                   +:+ show (length itemsToDeleteIds) +:+ " chats. "
                   +:+ show (length (errors v)) +:+ " failed.")));;
    loadEntries;;
    modify (setSelectedItems []);;
    modify (setSelectionMode false);;
    if shouldNavigate v
    then emit (set_location_pathname "/")
    else mret ().

(** ** Selection controller and dialog *)

Definition closeDialog : M unit := modify (setDialogContent dialog_null).

Definition toggleSelectionMode : M unit :=
  st ← get;
  modify (setSelectionMode (negb (st_selectionMode st)));;
  if st_selectionMode st
  then modify (setSelectedItems [])
  else mret ().

Definition toggleItemSelection (id : string) : M unit :=
  modify (λ st,
    setSelectedItems (toggleItemSelection_update id (st_selectedItems st)) st).

(** [list.filter((item) => selectedItems.includes(item.id))]: the entries
    that [handleBulkDeleteClick] resolves from the selection. *)
Definition selectedChats (st : State) : list ChatHistoryItem :=
  List.filter (λ item, includes (st_selectedItems st) (item_id item))
    (st_list st).

Definition handleBulkDeleteClick : M unit :=
  st ← get;
  if bool_decide (length (st_selectedItems st) = 0)
  then emit (toast_info "Select at least one chat to delete")
  else
    if bool_decide (length (selectedChats st) = 0)
    then emit (toast_error "Could not find selected chats")
    else modify (setDialogContent (dialog_bulkDelete (selectedChats st))).

Definition filteredList (st : State) : list ChatHistoryItem :=
  filteredItems (st_searchQuery st) (st_list st).

Definition selectAll : M unit :=
  st ← get;
  let allFilteredIds := map item_id (filteredList st) in
  modify (λ st,
    setSelectedItems (selectAll_update allFilteredIds (st_selectedItems st)) st).

(** The [onClick] of the dialog's danger button, by the kind of dialog
    that is rendered. *)
Definition dialogConfirm : M unit :=
  st ← get;
  match st_dialogContent st with
  | dialog_null => mret ()
  | dialog_delete item => deleteItem item;; closeDialog
  | dialog_bulkDelete _ => deleteSelectedItems (st_selectedItems st);; closeDialog
  end.

(** [useEffect(() => { if (open) loadEntries() }, [open, loadEntries])]
    after [setOpen(v)]: the effect runs when [open] changes. *)
Definition changeOpen (v : bool) : M unit :=
  st ← get;
  modify (setOpen v);;
  if negb (bool_decide (st_open st = v)) && v then loadEntries else mret ().

(** ** The component as a transition system *)

Inductive UIEvent :=
| ev_mouseOpen (v : bool)
| ev_searchChange (text : string)
| ev_toggleSelectionMode
| ev_toggleItemSelection (id : string)
| ev_selectAll
| ev_bulkDeleteClick
| ev_deleteClick (item : ChatHistoryItem)
| ev_dialogClose
| ev_dialogConfirm
| ev_loadSettled.

(** A handler runs to completion before the next event is taken.  Every
    handler may be invoked in every state; the controls that the rendering
    hides or disables in some states only remove transitions. *)
Definition handler (ev : UIEvent) : M unit :=
  match ev with
  | ev_mouseOpen v => changeOpen v
  | ev_searchChange text => modify (setSearchQuery text)
  | ev_toggleSelectionMode => toggleSelectionMode
  | ev_toggleItemSelection id => toggleItemSelection id
  | ev_selectAll => selectAll
  | ev_bulkDeleteClick => handleBulkDeleteClick
  | ev_deleteClick item => modify (setDialogContent (dialog_delete item))
  | ev_dialogClose => closeDialog
  | ev_dialogConfirm => dialogConfirm
  | ev_loadSettled => settleLoad
  end.

Definition step (st : State) (ev : UIEvent) : State := exec (handler ev) st.

Definition run (st : State) (evs : list UIEvent) : State :=
  fold_left step evs st.

Inductive reachable : State → Prop :=
| reachable_initial db store storage chat :
    reachable (initial db store storage chat)
| reachable_step st ev :
    reachable st → reachable (step st ev).

(** ** What the store answers during a bulk delete

    The store as [deleteById] leaves it after the identifiers of [ids]
    have been submitted in turn, and the identifiers whose call resolved
    or was rejected. *)

Fixpoint store_after (store : Store) (ids : list string) : Store :=
  match ids with
  | [] => store
  | id :: rest => store_after (deleteById store id).1 rest
  end.

Definition resolves (store : Store) (id : string) : bool :=
  match (deleteById store id).2 with
  | Resolved _ => true
  | Rejected _ => false
  end.

Fixpoint succeeded (store : Store) (ids : list string) : list string :=
  match ids with
  | [] => []
  | id :: rest =>
    (if resolves store id then [id] else [])
    ++ succeeded (deleteById store id).1 rest
  end.

Fixpoint failed (store : Store) (ids : list string) : list string :=
  match ids with
  | [] => []
  | id :: rest =>
    (if resolves store id then [] else [id])
    ++ failed (deleteById store id).1 rest
  end.

(** The effects of one [deleteChat(id)] when [db] is defined, by what
    localStorage answers. *)
Definition chat_effects (storage : Storage) (id : string) : list Effect :=
  call_removeItem ("snapshot:" +:+ id)
  :: match (removeItem storage ("snapshot:" +:+ id)).2 with
     | Resolved _ => []
     | Rejected snapshotError =>
       [console_error ("Error deleting snapshot for chat " +:+ id +:+ ":")
          snapshotError]
     end
  ++ [call_deleteById id].

Fixpoint storage_after (storage : Storage) (ids : list string) : Storage :=
  match ids with
  | [] => storage
  | id :: rest =>
    storage_after (removeItem storage ("snapshot:" +:+ id)).1 rest
  end.

Fixpoint loop_effects (storage : Storage) (ids : list string) : list Effect :=
  match ids with
  | [] => []
  | id :: rest =>
    chat_effects storage id
    ++ loop_effects (removeItem storage ("snapshot:" +:+ id)).1 rest
  end.

(** The identifiers for which [deleteById] was called, in call order. *)
Definition deleted_ids (log : list Effect) : list string :=
  omap (λ e, match e with call_deleteById id => Some id | _ => None end) log.

(** The state one [deleteChat(id)] leaves when [db] is defined. *)
Definition after_deleteChat (st : State) (id : string) : State :=
  put_store (deleteById (st_store st) id).1
    (put_localStorage (removeItem (st_localStorage st) ("snapshot:" +:+ id)).1
       (put_log (st_log st ++ chat_effects (st_localStorage st) id) st)).

(** The state the loop of [deleteSelectedItems] leaves when [db] is
    defined. *)
Definition after_loop (st : State) (ids : list string) : State :=
  put_store (store_after (st_store st) ids)
    (put_localStorage (storage_after (st_localStorage st) ids)
       (put_log (st_log st ++ loop_effects (st_localStorage st) ids) st)).

(** The notice [deleteSelectedItems] issues once the loop is over. *)
Definition summary_toast (store : Store) (ids : list string) : Effect :=
  let deleted := length (succeeded store ids) in
  if bool_decide (length (failed store ids) = 0)
  then toast_success
         (show deleted +:+ " chat"
          +:+ (if bool_decide (deleted = 1) then "" else "s")
          +:+ " deleted successfully")
  else toast_warning
         ("Deleted " +:+ show deleted +:+ " of " +:+ show (length ids)
          +:+ " chats. " +:+ show (length (failed store ids)) +:+ " failed.").

(** Whether the active chat is among the identifiers deleted. *)
Definition active_deleted (st : State) (ids : list string) : bool :=
  existsb (λ id, bool_decide (Some id = st_chatId st))
    (succeeded (st_store st) ids).

(** The state a bulk delete leaves when [db] is defined and the list of
    identifiers is not empty. *)
Definition after_deleteSelectedItems (st : State) (ids : list string) : State :=
  let st1 := after_loop st ids in
  let st2 :=
    put_log (st_log st1 ++ [summary_toast (st_store st) ids; call_getAll]) st1 in
  let st3 := put_pending (st_pending st2 ++ [getAll (st_store st2)]) st2 in
  let st4 := setSelectionMode false (setSelectedItems [] st3) in
  if active_deleted st ids
  then put_log (st_log st4 ++ [set_location_pathname "/"]) st4
  else st4.

End Menu.

Arguments State : clear implicits.

(** ** In-memory collaborators for the examples *)

(** A store that holds its items in a list and rejects [deleteById] for
    the identifiers listed in [mem_failing]. *)
Record MemStore := mkMemStore {
  mem_items : list ChatHistoryItem;
  mem_failing : list string;
}.

#[global] Instance MemStore_ChatStore : ChatStore MemStore := {
  getAll store := Resolved (mem_items store);
  deleteById store id :=
    if includes (mem_failing store) id
    then (store, Rejected {| message := "delete failed" |})
    else (mkMemStore
            (filter (λ item, item_id item ≠ id) (mem_items store))
            (mem_failing store),
          Resolved ());
}.

(** A localStorage that either works or throws on every access. *)
Record MemStorage := mkMemStorage {
  ls_entries : gmap string string;
  ls_denied : bool;
}.

#[global] Instance MemStorage_WebStorage : WebStorage MemStorage := {
  removeItem storage key :=
    if ls_denied storage
    then (storage, Rejected {| message := "SecurityError" |})
    else (mkMemStorage (delete key (ls_entries storage)) false, Resolved ());
}.

(** A search hook that shows everything for the empty text and otherwise
    the items whose description is the text. *)
#[local] Instance exactSearch : SearchFilter := {|
  filteredItems text items :=
    if bool_decide (text = "") then items
    else filter (λ item, item_description item = Some text) items;
|}.

Definition chat (id : string) : ChatHistoryItem :=
  {| item_id := id; item_urlId := Some id; item_description := Some id;
     item_timestamp := "2025-01-01T00:00:00.000Z" |}.

Definition store_abc (failing : list string) : MemStore :=
  mkMemStore [chat "a"; chat "b"; chat "c"] failing.

Definition storage_ok : MemStorage := mkMemStorage ∅ false.
Definition storage_denied : MemStorage := mkMemStorage ∅ true.

(** Selection mode entered and a selected, on a menu that has not loaded
    its list. *)
Definition ex_selecting : State MemStore MemStorage :=
  run (initial true (store_abc []) storage_ok None)
    [ev_toggleSelectionMode; ev_toggleItemSelection "a"].

(** A browser that denies localStorage, and a store that cannot delete b. *)
Definition ex_denied : State MemStore MemStorage :=
  initial true (store_abc ["b"]) storage_denied None.

(** The menu opened on a store that cannot delete b, everything selected. *)
Definition ex_all_selected : State MemStore MemStorage :=
  run (initial true (store_abc ["b"]) storage_ok None)
    [ev_mouseOpen true; ev_loadSettled; ev_toggleSelectionMode; ev_selectAll].

(** The chat a is the active one; in the second state the store cannot
    delete it. *)
Definition ex_active : State MemStore MemStorage :=
  initial true (store_abc []) storage_ok (Some "a").

Definition ex_active_failing : State MemStore MemStorage :=
  initial true (store_abc ["a"]) storage_ok (Some "a").

(** Selection mode with nothing selected, and with only an identifier
    selected that no entry has. *)
Definition ex_none_selected : State MemStore MemStorage :=
  run (initial true (store_abc []) storage_ok None)
    [ev_mouseOpen true; ev_loadSettled; ev_toggleSelectionMode].

Definition ex_unknown_selected : State MemStore MemStorage :=
  step ex_none_selected (ev_toggleItemSelection "z").

(** The delete dialog of b is open, on a store that cannot delete b; the
    first load has not settled yet. *)
Definition ex_delete_b : State MemStore MemStorage :=
  run (initial true (store_abc ["b"]) storage_ok None)
    [ev_mouseOpen true; ev_deleteClick (chat "b")].

(** The menu opened on a store holding a, b and c, with c and then a
    selected; c is then deleted through its own dialog, the list reloads. *)
Definition ex_stale_selection : State MemStore MemStorage :=
  run (initial true (store_abc []) storage_ok None)
    [ev_mouseOpen true; ev_loadSettled; ev_toggleSelectionMode;
     ev_toggleItemSelection "c"; ev_toggleItemSelection "a";
     ev_deleteClick (chat "c"); ev_dialogConfirm; ev_loadSettled].

(** ... and the bulk delete is requested. *)
Definition ex_bulk_requested : State MemStore MemStorage :=
  step ex_stale_selection ev_bulkDeleteClick.

(** ** The rest of the component: pointer tracking and labels *)

(** The numbers of a mouse event and of the menu's bounding box are only
    compared and added to a threshold; the handlers are written over any
    type that offers both, so that what is proved holds for JavaScript
    numbers whatever their rounding. *)
Class Coordinate (N : Type) := {
  coord_lt : N → N → bool;
  coord_add : N → N → N;
  coord_of_nat : nat → N;
}.

(** The fields of [MouseEvent] that [onMouseMove] reads. *)
Record MouseEvent (N : Type) := mkMouseEvent {
  pageX : N;
  clientX : N;
}.
Arguments mkMouseEvent {N} pageX clientX.
Arguments pageX {N} m.
Arguments clientX {N} m.

(** The value of the [open] cell once [onMouseMove(event)] has returned.
    [menuRight] is [menuRef.current.getBoundingClientRect().right], absent
    when [menuRef.current] is null.  The two [setOpen] calls are applied in
    the order the handler makes them. *)
Definition onMouseMove_open {N : Type} `{!Coordinate N}
    (isSettingsOpen : bool) (event : MouseEvent N) (menuRight : option N)
    (open : bool) : bool :=
  let enterThreshold := coord_of_nat 20 in
  let exitThreshold := coord_of_nat 20 in
  if isSettingsOpen then open
  else
    let open1 :=
      if coord_lt (pageX event) enterThreshold then true else open in
    match menuRight with
    | Some rectRight =>
      if coord_lt (coord_add rectRight exitThreshold) (clientX event)
      then false
      else open1
    | None => open1
    end.

(** Pixel coordinates as integers, for the examples. *)
#[global] Instance Z_Coordinate : Coordinate Z := {
  coord_lt := Z.ltb;
  coord_add := Z.add;
  coord_of_nat := Z.of_nat;
}.

(** The two captions of the select-all button. *)
Inductive SelectAllLabel :=
| label_deselect_all
| label_select_all.

Section Labels.
Context {Store Storage : Type}.
Context {CS : ChatStore Store} {WS : WebStorage Storage} {SF : SearchFilter}.

(** [selectedItems.length === filteredList.length ? 'Tüm seçimi kaldır'
    : 'Tümünü seç'] *)
Definition selectAllLabel (st : State Store Storage) : SelectAllLabel :=
  if bool_decide (length (st_selectedItems st) = length (filteredList st))
  then label_deselect_all
  else label_select_all.

End Labels.

(** The keys for which [localStorage.removeItem] was called, in call
    order. *)
Definition removed_keys (log : list Effect) : list string :=
  omap (λ e, match e with call_removeItem key => Some key | _ => None end) log.

(** The number of [getAll] requests in a log. *)
Definition reload_count (log : list Effect) : nat :=
  length (List.filter (λ e, bool_decide (e = call_getAll)) log).

(** ** More example states *)

(** A menu whose [db] is undefined, with the delete dialog of a open. *)
Definition ex_no_db_delete : State MemStore MemStorage :=
  run (initial false (store_abc []) storage_ok None)
    [ev_mouseOpen true; ev_deleteClick (chat "a")].

(** The same with a bulk-delete dialog: the database went away after the
    list was loaded and a was selected. *)
Definition ex_no_db_bulk : State MemStore MemStorage :=
  mkState [chat "a"; chat "b"] true (dialog_bulkDelete [chat "a"]) true ["a"]
    "" false (store_abc []) storage_ok None [] [].

(** A store holding an entry without description next to a and b. *)
Definition store_with_draft : MemStore :=
  mkMemStore
    [chat "a";
     {| item_id := "draft"; item_urlId := Some "draft";
        item_description := None;
        item_timestamp := "2025-01-02T00:00:00.000Z" |};
     chat "b"]
    [].

Definition ex_with_draft : State MemStore MemStorage :=
  initial true store_with_draft storage_ok None.

(** The menu opened on that store, the first load settled. *)
Definition ex_draft_loaded : State MemStore MemStorage :=
  run ex_with_draft [ev_mouseOpen true; ev_loadSettled].

(** The menu open and loaded on a, b, c, with a cached snapshot for b in a
    localStorage that works, and a store that cannot delete b. *)
Definition ex_cached_b : State MemStore MemStorage :=
  run (initial true (store_abc ["b"])
         (mkMemStorage {[ "snapshot:b" := "{}" ]} false) None)
    [ev_mouseOpen true; ev_loadSettled].

(** The menu open and loaded on a, b, c; a is the active chat and its
    delete dialog is open while a and c are selected. *)
Definition ex_delete_selected : State MemStore MemStorage :=
  run (initial true (store_abc []) storage_ok (Some "a"))
    [ev_mouseOpen true; ev_loadSettled; ev_toggleSelectionMode;
     ev_toggleItemSelection "a"; ev_toggleItemSelection "c";
     ev_deleteClick (chat "a")].

(** The menu open and loaded on a, b, c with c and a selected. *)
Definition ex_two_selected : State MemStore MemStorage :=
  run (initial true (store_abc []) storage_ok None)
    [ev_mouseOpen true; ev_loadSettled; ev_toggleSelectionMode;
     ev_toggleItemSelection "c"; ev_toggleItemSelection "a"].

(** ** Proof steps shared by the handler lemmas *)

(** Unfolds the monad down to functions on states. *)
Ltac run_monad :=
  unfold exec, mbind, M_bind, mret, M_ret, get, modify, emit, throw, try_catch;
  simpl.

(** Applies the state updates that are left. *)
Ltac run_updates := unfold modify; simpl.

(** ** Facts about the array helpers *)

Lemma includes_true arr x : includes arr x = true ↔ x ∈ arr.
Proof. unfold includes. by rewrite bool_decide_eq_true. Qed.

Lemma includes_false arr x : includes arr x = false ↔ x ∉ arr.
Proof. unfold includes. by rewrite bool_decide_eq_false. Qed.

Lemma elem_of_set_add seen x y : y ∈ set_add seen x ↔ y ∈ seen ∨ y = x.
Proof.
  unfold set_add. destruct (includes seen x) eqn:E.
  - apply includes_true in E. split; [by left | intros [?| ->]; done].
  - rewrite elem_of_app, list_elem_of_singleton. done.
Qed.

Lemma NoDup_set_add seen x : NoDup seen → NoDup (set_add seen x).
Proof.
  intros Hnd. unfold set_add. destruct (includes seen x) eqn:E; [done|].
  apply includes_false in E. apply NoDup_app. split_and!; [done | | ].
  - intros y Hy ->%list_elem_of_singleton. done.
  - apply NoDup_singleton.
Qed.

Lemma fold_set_add_elem arr : ∀ seen y,
  y ∈ fold_left set_add arr seen ↔ y ∈ seen ∨ y ∈ arr.
Proof.
  induction arr as [|x arr IH]; intros seen y; simpl.
  - rewrite elem_of_nil. tauto.
  - rewrite IH, elem_of_set_add, elem_of_cons. tauto.
Qed.

Lemma fold_set_add_NoDup arr : ∀ seen,
  NoDup seen → NoDup (fold_left set_add arr seen).
Proof.
  induction arr as [|x arr IH]; intros seen Hnd; simpl; [done|].
  by apply IH, NoDup_set_add.
Qed.

Lemma fold_set_add_absorb arr : ∀ seen,
  (∀ x, x ∈ arr → x ∈ seen) → fold_left set_add arr seen = seen.
Proof.
  induction arr as [|x arr IH]; intros seen Hsub; simpl; [done|].
  assert (includes seen x = true) as E
    by (apply includes_true, Hsub; left).
  unfold set_add at 2. rewrite E. apply IH. intros y Hy. apply Hsub. by right.
Qed.

Lemma fold_set_add_app_NoDup arr : ∀ seen,
  NoDup (seen ++ arr) → fold_left set_add arr seen = seen ++ arr.
Proof.
  induction arr as [|x arr IH]; intros seen Hnd; simpl.
  - by rewrite app_nil_r.
  - assert (x ∉ seen) as Hx.
    { apply NoDup_app in Hnd as (_ & Hdisj & _). intros Hin.
      apply (Hdisj x Hin). left. }
    apply includes_false in Hx. unfold set_add at 2. rewrite Hx.
    rewrite IH; rewrite <- (assoc_L (++)); done.
Qed.

Lemma elem_of_array_from_set arr y : y ∈ array_from_set arr ↔ y ∈ arr.
Proof.
  unfold array_from_set. rewrite fold_set_add_elem, elem_of_nil. tauto.
Qed.

Lemma NoDup_array_from_set arr : NoDup (array_from_set arr).
Proof. apply fold_set_add_NoDup, NoDup_nil_2. Qed.

Lemma array_from_set_NoDup_id arr : NoDup arr → array_from_set arr = arr.
Proof. intros Hnd. unfold array_from_set. by rewrite fold_set_add_app_NoDup. Qed.

(** ** The selection controller *)

Lemma elem_of_toggle id prev x :
  x ∈ toggleItemSelection_update id prev ↔
  (x ≠ id ∧ x ∈ prev) ∨ (x = id ∧ id ∉ prev).
Proof.
  unfold toggleItemSelection_update. destruct (includes prev id) eqn:E.
  - apply includes_true in E. rewrite list_elem_of_filter. naive_solver.
  - apply includes_false in E. rewrite elem_of_app, list_elem_of_singleton.
    destruct (decide (x = id)) as [->|]; naive_solver.
Qed.

Lemma filter_other_id (id : string) (arr : list string) :
  id ∉ arr → filter (λ itemId, itemId ≠ id) arr = arr.
Proof.
  induction arr as [|y arr IH]; intros Hnin; [done|].
  apply not_elem_of_cons in Hnin as [Hne Hnin].
  rewrite filter_cons_True by done. f_equal. by apply IH.
Qed.

Lemma NoDup_toggle id prev :
  NoDup prev → NoDup (toggleItemSelection_update id prev).
Proof.
  intros Hnd. unfold toggleItemSelection_update.
  destruct (includes prev id) eqn:E.
  - by apply NoDup_filter.
  - apply includes_false in E. apply NoDup_app. split_and!; [done | | ].
    + intros y Hy ->%list_elem_of_singleton. done.
    + apply NoDup_singleton.
Qed.

Lemma toggle_iter_member id prev n :
  id ∈ Nat.iter n (toggleItemSelection_update id) prev ↔
  if Nat.even n then id ∈ prev else id ∉ prev.
Proof.
  induction n as [n IH] using lt_wf_ind.
  destruct n as [|[|n]].
  - done.
  - simpl. rewrite elem_of_toggle. naive_solver.
  - change (Nat.iter (S (S n)) (toggleItemSelection_update id) prev)
      with (toggleItemSelection_update id (toggleItemSelection_update id
              (Nat.iter n (toggleItemSelection_update id) prev))).
    rewrite !elem_of_toggle. change (Nat.even (S (S n))) with (Nat.even n).
    rewrite <- (IH n) by lia.
    destruct (decide (id ∈ Nat.iter n (toggleItemSelection_update id) prev));
      naive_solver.
Qed.

Lemma forallb_includes prev ids :
  forallb (λ id, includes prev id) ids = true ↔ ∀ x, x ∈ ids → x ∈ prev.
Proof.
  rewrite forallb_forall. setoid_rewrite includes_true.
  setoid_rewrite <- list_elem_of_In. done.
Qed.

Lemma selectAll_update_deselect allFilteredIds prev :
  allFilteredIds ≠ [] → (∀ x, x ∈ allFilteredIds → x ∈ prev) →
  selectAll_update allFilteredIds prev
  = filter (λ id, negb (includes allFilteredIds id) = true) prev.
Proof.
  intros Hne Hsub. unfold selectAll_update.
  rewrite bool_decide_eq_true_2 by (destruct allFilteredIds; simpl; [done|lia]).
  apply forallb_includes in Hsub. by rewrite Hsub.
Qed.

Lemma selectAll_update_union allFilteredIds prev :
  ¬ (allFilteredIds ≠ [] ∧ ∀ x, x ∈ allFilteredIds → x ∈ prev) →
  selectAll_update allFilteredIds prev
  = array_from_set (prev ++ allFilteredIds).
Proof.
  intros Hnot. unfold selectAll_update.
  destruct (bool_decide (0 < length allFilteredIds)) eqn:E1; [|done].
  destruct (forallb (λ id, includes prev id) allFilteredIds) eqn:E2; [|done].
  exfalso. apply Hnot. split.
  - apply bool_decide_eq_true in E1. intros ->. simpl in E1. lia.
  - by apply forallb_includes.
Qed.

Lemma NoDup_selectAll_update allFilteredIds prev :
  NoDup prev → NoDup (selectAll_update allFilteredIds prev).
Proof.
  intros Hnd. unfold selectAll_update.
  destruct (_ && _); [by apply NoDup_filter | apply NoDup_array_from_set].
Qed.

(** C2. For every selection array [S] and every array [V] of visible
    identifiers: when [V] is not empty and all of [V] is in [S], [selectAll]
    leaves the identifiers of [S] that are not in [V] (the set S \ V); in
    every other case it leaves the identifiers of [S] together with those of
    [V] (the set S ∪ V), so nothing selected earlier is lost; when [V] is
    empty the selection set is unchanged (and so is the array itself when it
    has no duplicates).  The handler applies this update to the current
    selection with [V] the identifiers of the filtered list. *)
Theorem selectAll_spec {Store Storage : Type}
    {CS : ChatStore Store} {WS : WebStorage Storage} {SF : SearchFilter}
    (st : State Store Storage) (V S : list string) :
  exec selectAll st
  = setSelectedItems
      (selectAll_update (map item_id (filteredList st)) (st_selectedItems st)) st
  ∧ (V ≠ [] ∧ (∀ x, x ∈ V → x ∈ S) →
     ids_of (selectAll_update V S) = ids_of S ∖ ids_of V)
  ∧ (¬ (V ≠ [] ∧ ∀ x, x ∈ V → x ∈ S) →
     ids_of (selectAll_update V S) = ids_of S ∪ ids_of V)
  ∧ (V = [] →
     ids_of (selectAll_update V S) = ids_of S
     ∧ (NoDup S → selectAll_update V S = S)).
Proof.
  split_and!.
  - done.
  - intros [Hne Hsub]. rewrite selectAll_update_deselect by done.
    unfold ids_of. apply set_eq. intros x.
    rewrite elem_of_difference, !elem_of_list_to_set, list_elem_of_filter.
    rewrite negb_true_iff, includes_false. tauto.
  - intros Hnot. rewrite selectAll_update_union by done.
    unfold ids_of. apply set_eq. intros x.
    rewrite elem_of_union, !elem_of_list_to_set, elem_of_array_from_set.
    apply elem_of_app.
  - intros ->. rewrite selectAll_update_union by (intros [? _]; done).
    rewrite app_nil_r. split.
    + unfold ids_of. apply set_eq. intros x.
      by rewrite !elem_of_list_to_set, elem_of_array_from_set.
    + apply array_from_set_NoDup_id.
Qed.

Lemma selectAll_spec_witness :
  ids_of (selectAll_update ["a"; "b"] ["b"; "z"; "a"]) = ids_of ["z"]
  ∧ ids_of (selectAll_update ["a"; "b"] ["z"; "a"]) = ids_of ["z"; "a"; "b"]
  ∧ selectAll_update [] ["z"; "a"] = ["z"; "a"].
Proof.
  pose proof (selectAll_spec ex_selecting) as H.
  split_and!.
  - destruct (H ["a"; "b"] ["b"; "z"; "a"]) as (_ & Hd & _).
    rewrite Hd; [unfold ids_of; set_solver | split; [done | set_solver]].
  - destruct (H ["a"; "b"] ["z"; "a"]) as (_ & _ & Hu & _).
    rewrite Hu; [unfold ids_of; set_solver |].
    intros [_ Hsub]. specialize (Hsub "b"). set_solver.
  - destruct (H [] ["z"; "a"]) as (_ & _ & _ & He).
    apply He; [done |]. repeat constructor; set_solver.
Defined.

(** C3. [toggleSelectionMode] invoked while selection mode is on leaves
    selection mode off and the selection empty; invoked while it is off it
    leaves selection mode on and the selection as it was.  Nothing else
    changes and nothing is logged. *)
Theorem toggleSelectionMode_spec
    {Store Storage : Type}
    {CS : ChatStore Store} {WS : WebStorage Storage} {SF : SearchFilter}
    (st : State Store Storage) :
  (st_selectionMode st = true →
     exec toggleSelectionMode st
     = setSelectedItems [] (setSelectionMode false st)
     ∧ st_selectionMode (exec toggleSelectionMode st) = false
     ∧ st_selectedItems (exec toggleSelectionMode st) = [])
  ∧ (st_selectionMode st = false →
     exec toggleSelectionMode st = setSelectionMode true st
     ∧ st_selectionMode (exec toggleSelectionMode st) = true
     ∧ st_selectedItems (exec toggleSelectionMode st) = st_selectedItems st).
Proof.
  destruct st. unfold exec, toggleSelectionMode, mbind, M_bind, get, modify.
  simpl. split; intros ->; done.
Qed.

Lemma toggleSelectionMode_spec_witness :
  st_selectedItems ex_selecting = ["a"]
  ∧ st_selectionMode (exec toggleSelectionMode ex_selecting) = false
  ∧ st_selectedItems (exec toggleSelectionMode ex_selecting) = []
  ∧ st_selectionMode
      (exec toggleSelectionMode (exec toggleSelectionMode ex_selecting))
    = true
  ∧ st_selectedItems
      (exec toggleSelectionMode (exec toggleSelectionMode ex_selecting))
    = [].
Proof.
  destruct (toggleSelectionMode_spec ex_selecting) as [Hon _].
  destruct Hon as (_ & Hm & Hs); [reflexivity |].
  destruct (toggleSelectionMode_spec (exec toggleSelectionMode ex_selecting))
    as [_ Hoff].
  destruct (Hoff Hm) as (_ & Hm' & Hs').
  split_and!; [reflexivity | exact Hm | exact Hs | exact Hm' |].
  rewrite Hs'. exact Hs.
Defined.

(** C4. For every identifier and every selection, [toggleItemSelection]
    removes the identifier when it is selected and appends it otherwise,
    whatever the entry list holds; the other identifiers are untouched.
    Hence membership of the identifier flips with each call, after [n] calls
    it is as at the start exactly when [n] is even, and two calls in a row
    give back the same selection set (the same array when the identifier
    was not selected, a permutation of it when the array had no
    duplicates). *)
Theorem toggleItemSelection_spec
    {Store Storage : Type}
    {CS : ChatStore Store} {WS : WebStorage Storage} {SF : SearchFilter}
    (st : State Store Storage) (id : string) (prev : list string) :
  exec (toggleItemSelection id) st
  = setSelectedItems (toggleItemSelection_update id (st_selectedItems st)) st
  ∧ (id ∈ prev →
     toggleItemSelection_update id prev = filter (λ itemId, itemId ≠ id) prev)
  ∧ (id ∉ prev → toggleItemSelection_update id prev = prev ++ [id])
  ∧ (∀ x, x ≠ id → x ∈ toggleItemSelection_update id prev ↔ x ∈ prev)
  ∧ (id ∈ toggleItemSelection_update id prev ↔ id ∉ prev)
  ∧ (∀ n, id ∈ Nat.iter n (toggleItemSelection_update id) prev ↔
          if Nat.even n then id ∈ prev else id ∉ prev)
  ∧ ids_of (toggleItemSelection_update id (toggleItemSelection_update id prev))
    = ids_of prev
  ∧ (id ∉ prev →
     toggleItemSelection_update id (toggleItemSelection_update id prev) = prev)
  ∧ (NoDup prev →
     toggleItemSelection_update id (toggleItemSelection_update id prev)
     ≡ₚ prev).
Proof.
  assert (ids_of (toggleItemSelection_update id
                    (toggleItemSelection_update id prev)) = ids_of prev) as Hset.
  { unfold ids_of. apply set_eq. intros x.
    rewrite !elem_of_list_to_set, !elem_of_toggle.
    destruct (decide (x = id)) as [->|]; destruct (decide (id ∈ prev));
      naive_solver. }
  split_and!.
  - done.
  - intros Hin. unfold toggleItemSelection_update.
    apply includes_true in Hin. by rewrite Hin.
  - intros Hnin. unfold toggleItemSelection_update.
    apply includes_false in Hnin. by rewrite Hnin.
  - intros x Hx. rewrite elem_of_toggle. naive_solver.
  - rewrite elem_of_toggle. naive_solver.
  - intros n. apply toggle_iter_member.
  - exact Hset.
  - intros Hnin. unfold toggleItemSelection_update at 2.
    pose proof Hnin as E. apply includes_false in E. rewrite E.
    unfold toggleItemSelection_update.
    assert (includes (prev ++ [id]) id = true) as ->
      by (apply includes_true; set_solver).
    rewrite filter_app, filter_cons_False, filter_nil, app_nil_r by naive_solver.
    by apply filter_other_id.
  - intros Hnd. apply NoDup_Permutation; [| done |].
    + by do 2 apply NoDup_toggle.
    + intros x. unfold ids_of in Hset.
      rewrite <- (elem_of_list_to_set (C := gset string) x prev), <- Hset.
      by rewrite elem_of_list_to_set.
Qed.

Lemma toggleItemSelection_spec_witness :
  toggleItemSelection_update "b" ["a"; "b"; "c"] = ["a"; "c"]
  ∧ toggleItemSelection_update "b" ["a"; "c"] = ["a"; "c"; "b"]
  ∧ toggleItemSelection_update "b" (toggleItemSelection_update "b" ["a"; "c"])
    = ["a"; "c"].
Proof.
  pose proof (toggleItemSelection_spec ex_selecting "b") as H.
  split_and!.
  - destruct (H ["a"; "b"; "c"]) as (_ & Hr & _).
    rewrite Hr; [reflexivity | set_solver].
  - destruct (H ["a"; "c"]) as (_ & _ & Ha & _).
    rewrite Ha; [reflexivity | set_solver].
  - destruct (H ["a"; "c"]) as (_ & _ & _ & _ & _ & _ & _ & Hc & _).
    apply Hc. set_solver.
Defined.

(** ** Running the handlers *)

Section Runs.
Context {Store Storage : Type}.
Context {CS : ChatStore Store} {WS : WebStorage Storage} {SF : SearchFilter}.
Implicit Types (st : State Store Storage) (id : string) (ids : list string).

Lemma emitted_app {A} (m : M A) st (new : list Effect) :
  st_log (exec m st) = st_log st ++ new → emitted m st = new.
Proof. intros E. unfold emitted. rewrite E. apply drop_app_length. Qed.

Lemma deleteChat_no_db st id :
  st_db st = false →
  deleteChat id st = (Thrown {| message := "Database not available" |}, st).
Proof. intros E. unfold deleteChat. run_monad. by rewrite E. Qed.

Lemma deleteChat_run st id :
  st_db st = true →
  deleteChat id st
  = (match (deleteById (st_store st) id).2 with
     | Resolved _ => Normal ()
     | Rejected e => Thrown e
     end, after_deleteChat st id).
Proof.
  intros E. destruct st; simpl in E; subst.
  unfold deleteChat, after_deleteChat, chat_effects.
  unfold localStorage_removeItem, await_deleteById. run_monad.
  destruct (removeItem _ _) as [ls' [[]|e]]; simpl;
    destruct (deleteById _ _) as [store' [[]|e']]; simpl;
    unfold put_log; simpl; rewrite <- ?(assoc_L (++)); reflexivity.
Qed.

Lemma after_deleteChat_log st id :
  st_log (after_deleteChat st id)
  = st_log st ++ chat_effects (st_localStorage st) id.
Proof. by destruct st. Qed.

Lemma after_deleteChat_store st id :
  st_store (after_deleteChat st id) = (deleteById (st_store st) id).1.
Proof. by destruct st. Qed.

Lemma after_deleteChat_db st id : st_db (after_deleteChat st id) = st_db st.
Proof. by destruct st. Qed.

Lemma after_loop_cons st id ids :
  after_loop (after_deleteChat st id) ids = after_loop st (id :: ids).
Proof.
  destruct st. unfold after_loop, after_deleteChat. simpl.
  unfold put_log. simpl. by rewrite <- (assoc_L (++)).
Qed.

Lemma after_loop_nil st : after_loop st [] = st.
Proof.
  destruct st. unfold after_loop. simpl. unfold put_log. simpl.
  by rewrite app_nil_r.
Qed.

Lemma deleteSelectedItems_loop_run cur ids : ∀ v st,
  st_db st = true →
  deleteSelectedItems_loop cur ids v st
  = (Normal
       (mkLocals
          (deletedCount v + length (succeeded (st_store st) ids))
          (errors v ++ failed (st_store st) ids)
          (shouldNavigate v
           || existsb (λ id, bool_decide (Some id = cur))
                (succeeded (st_store st) ids))),
     after_loop st ids).
Proof.
  induction ids as [|id ids IH]; intros v st Hdb.
  - simpl. run_monad. rewrite after_loop_nil, Nat.add_0_r, app_nil_r, orb_false_r.
    by destruct v.
  - cbn [deleteSelectedItems_loop]. unfold mbind, M_bind, try_catch.
    rewrite (deleteChat_run st id Hdb).
    rewrite <- after_loop_cons.
    cbn [succeeded failed]. unfold resolves.
    destruct ((deleteById (st_store st) id).2) as [[]|e] eqn:Eout.
    + unfold mret, M_ret.
      rewrite IH by (by rewrite after_deleteChat_db).
      cbn [deletedCount errors shouldNavigate].
      rewrite after_deleteChat_store. cbn [app length existsb].
      do 3 f_equal; [lia |].
      destruct (bool_decide (Some id = cur)), (shouldNavigate v); done.
    + unfold mret, M_ret.
      rewrite IH by (by rewrite after_deleteChat_db).
      cbn [deletedCount errors shouldNavigate].
      rewrite after_deleteChat_store. cbn [app length existsb].
      by rewrite <- (assoc_L (++)).
Qed.

Lemma deleteSelectedItems_eq st ids :
  st_db st = true → ids ≠ [] →
  deleteSelectedItems ids st = (Normal (), after_deleteSelectedItems st ids).
Proof.
  intros Hdb Hne. destruct st; simpl in Hdb; subst.
  unfold deleteSelectedItems, after_deleteSelectedItems.
  unfold mbind at 1. unfold M_bind at 1. unfold get at 1.
  cbn [st_db negb orb].
  rewrite bool_decide_eq_false_2 by (destruct ids; [done | simpl; lia]).
  unfold mbind at 1. unfold M_bind at 1.
  rewrite deleteSelectedItems_loop_run by done.
  cbn [deletedCount errors shouldNavigate orb Nat.add app st_store st_chatId].
  unfold summary_toast, active_deleted, loadEntries, after_loop.
  cbn [st_store st_chatId].
  destruct (bool_decide (length (failed _ ids) = 0));
    destruct (existsb _ (succeeded _ ids));
    run_monad; run_updates; rewrite <- ?(assoc_L (++)); done.
Qed.

(** The log and the cells that a bulk delete leaves, when [db] is defined
    and the list of identifiers is not empty. *)
Lemma deleteSelectedItems_run st ids :
  st_db st = true → ids ≠ [] →
  st_log (exec (deleteSelectedItems ids) st)
  = st_log st ++ loop_effects (st_localStorage st) ids
    ++ [summary_toast (st_store st) ids; call_getAll]
    ++ (if active_deleted st ids then [set_location_pathname "/"] else [])
  ∧ st_selectedItems (exec (deleteSelectedItems ids) st) = []
  ∧ st_selectionMode (exec (deleteSelectedItems ids) st) = false
  ∧ st_store (exec (deleteSelectedItems ids) st) = store_after (st_store st) ids
  ∧ st_pending (exec (deleteSelectedItems ids) st)
    = st_pending st ++ [getAll (store_after (st_store st) ids)]
  ∧ st_dialogContent (exec (deleteSelectedItems ids) st) = st_dialogContent st
  ∧ st_list (exec (deleteSelectedItems ids) st) = st_list st.
Proof.
  intros Hdb Hne. unfold exec. rewrite deleteSelectedItems_eq by done.
  destruct st. unfold after_deleteSelectedItems, after_loop.
  destruct (active_deleted _ ids); simpl; unfold put_log; simpl;
    rewrite <- ?(assoc_L (++)); simpl; rewrite ?app_nil_r; done.
Qed.

Lemma deleteSelectedItems_skip st ids :
  st_db st = false ∨ ids = [] → deleteSelectedItems ids st = (Normal (), st).
Proof.
  intros H. unfold deleteSelectedItems. run_monad.
  destruct H as [-> | ->]; [done |]. simpl. by rewrite orb_true_r.
Qed.

Lemma deleted_ids_app (l k : list Effect) :
  deleted_ids (l ++ k) = deleted_ids l ++ deleted_ids k.
Proof. unfold deleted_ids. apply omap_app. Qed.

Lemma chat_effects_deleted_ids (storage : Storage) id :
  deleted_ids (chat_effects storage id) = [id].
Proof.
  unfold chat_effects.
  by destruct (removeItem storage ("snapshot:" +:+ id)).2.
Qed.

Lemma chat_effects_quiet (storage : Storage) id :
  List.filter is_toast (chat_effects storage id) = []
  ∧ List.filter is_navigation (chat_effects storage id) = [].
Proof.
  unfold chat_effects.
  by destruct (removeItem storage ("snapshot:" +:+ id)).2.
Qed.

Lemma loop_effects_deleted_ids ids : ∀ storage : Storage,
  deleted_ids (loop_effects storage ids) = ids.
Proof.
  induction ids as [|id ids IH]; intros storage; [done|].
  cbn [loop_effects]. rewrite deleted_ids_app, chat_effects_deleted_ids, IH.
  done.
Qed.

Lemma loop_effects_quiet ids : ∀ storage : Storage,
  List.filter is_toast (loop_effects storage ids) = []
  ∧ List.filter is_navigation (loop_effects storage ids) = [].
Proof.
  induction ids as [|id ids IH]; intros storage; [done|].
  cbn [loop_effects]. rewrite !List.filter_app.
  destruct (chat_effects_quiet storage id) as [-> ->].
  by destruct (IH (removeItem storage ("snapshot:" +:+ id)).1) as [-> ->].
Qed.

Lemma succeeded_failed_length ids : ∀ store : Store,
  length (succeeded store ids) + length (failed store ids) = length ids.
Proof.
  induction ids as [|id ids IH]; intros store; [done|].
  simpl. specialize (IH (deleteById store id).1).
  destruct (resolves store id); simpl; lia.
Qed.

Lemma active_deleted_true st ids :
  active_deleted st ids = true ↔
  ∃ c, st_chatId st = Some c ∧ c ∈ succeeded (st_store st) ids.
Proof.
  unfold active_deleted. rewrite existsb_exists. split.
  - intros (c & Hin & Hc). apply bool_decide_eq_true in Hc.
    exists c. by rewrite <- list_elem_of_In in Hin.
  - intros (c & Hc & Hin). exists c. rewrite <- list_elem_of_In.
    split; [done |]. by apply bool_decide_eq_true.
Qed.

Lemma summary_toast_warning (store : Store) ids :
  failed store ids ≠ [] →
  summary_toast store ids
  = toast_warning
      ("Deleted " +:+ show (length (succeeded store ids)) +:+ " of "
       +:+ show (length ids) +:+ " chats. "
       +:+ show (length (failed store ids)) +:+ " failed.").
Proof.
  intros Hne. unfold summary_toast.
  rewrite bool_decide_eq_false_2; [done |].
  by destruct (failed store ids).
Qed.

Lemma summary_toast_is_toast (store : Store) ids :
  is_toast (summary_toast store ids) = true
  ∧ is_navigation (summary_toast store ids) = false
  ∧ deleted_ids [summary_toast store ids] = [].
Proof. unfold summary_toast. by destruct (bool_decide _). Qed.

Lemma deleteSelectedItems_emitted st ids :
  st_db st = true → ids ≠ [] →
  emitted (deleteSelectedItems ids) st
  = loop_effects (st_localStorage st) ids
    ++ [summary_toast (st_store st) ids; call_getAll]
    ++ (if active_deleted st ids then [set_location_pathname "/"] else []).
Proof.
  intros Hdb Hne. apply emitted_app.
  by destruct (deleteSelectedItems_run st ids Hdb Hne) as [-> _].
Qed.

Lemma bulk_delete_run_ids st ids :
  st_db st = true → ids ≠ [] →
  deleted_ids (emitted (deleteSelectedItems ids) st) = ids.
Proof.
  intros Hdb Hne. rewrite deleteSelectedItems_emitted by done.
  rewrite !deleted_ids_app, loop_effects_deleted_ids.
  destruct (summary_toast_is_toast (st_store st) ids) as (_ & _ & Hs).
  change [summary_toast (st_store st) ids; call_getAll]
    with ([summary_toast (st_store st) ids] ++ [call_getAll]).
  rewrite deleted_ids_app, Hs.
  destruct (active_deleted st ids); simpl; by rewrite app_nil_r.
Qed.

End Runs.

(** ** Deletion *)

(** C8. For every identifier: when removing the cached snapshot (key
    "snapshot:" followed by the identifier) throws, the error is written to
    the console and nothing else; the store deletion for the identifier is
    still issued, and [deleteChat] ends exactly as that store call ends. *)
Theorem deleteChat_snapshot_failure {Store Storage : Type}
    {CS : ChatStore Store} {WS : WebStorage Storage} {SF : SearchFilter}
    (st : State Store Storage) (id : string) (snapshotError : Error) :
  st_db st = true →
  (removeItem (st_localStorage st) ("snapshot:" +:+ id)).2
  = Rejected snapshotError →
  emitted (deleteChat id) st
  = [call_removeItem ("snapshot:" +:+ id);
     console_error ("Error deleting snapshot for chat " +:+ id +:+ ":")
       snapshotError;
     call_deleteById id]
  ∧ (deleteChat id st).1
    = match (deleteById (st_store st) id).2 with
      | Resolved _ => Normal ()
      | Rejected e => Thrown e
      end
  ∧ st_store (exec (deleteChat id) st) = (deleteById (st_store st) id).1.
Proof.
  intros Hdb Hls. unfold emitted, exec. rewrite deleteChat_run by done.
  cbv [fst snd]. split_and!; [| done | apply after_deleteChat_store].
  rewrite after_deleteChat_log. unfold chat_effects. rewrite Hls.
  apply drop_app_length.
Qed.

Lemma deleteChat_snapshot_failure_witness :
  deleted_ids (emitted (deleteChat "a") ex_denied) = ["a"]
  ∧ (deleteChat "a" ex_denied).1 = Normal ()
  ∧ mem_items (st_store (exec (deleteChat "a") ex_denied))
    = [chat "b"; chat "c"]
  ∧ deleted_ids (emitted (deleteChat "b") ex_denied) = ["b"]
  ∧ (deleteChat "b" ex_denied).1 = Thrown {| message := "delete failed" |}.
Proof.
  destruct (deleteChat_snapshot_failure ex_denied "a"
              {| message := "SecurityError" |})
    as (Ha1 & Ha2 & Ha3); [reflexivity | reflexivity |].
  destruct (deleteChat_snapshot_failure ex_denied "b"
              {| message := "SecurityError" |})
    as (Hb1 & Hb2 & _); [reflexivity | reflexivity |].
  rewrite Ha1, Ha2, Ha3, Hb1, Hb2. split_and!; reflexivity.
Defined.

(** C5. In a bulk delete over a non-empty list of identifiers with the
    store available, the store deletion is issued for every identifier of
    the list, once and in order, whatever failed before it, and the handler
    itself ends normally; every identifier either succeeded or is recorded
    as failed.  When at least one failed, the only notice is one warning,
    "Deleted s of n chats. f failed.", with [s] the number that succeeded,
    [n] the number requested and [f] the number that failed.  Whatever the
    outcome, the selection is empty and selection mode is off afterwards. *)
Theorem bulk_delete_partial_failure {Store Storage : Type}
    {CS : ChatStore Store} {WS : WebStorage Storage} {SF : SearchFilter}
    (st : State Store Storage) (ids : list string) :
  st_db st = true → ids ≠ [] →
  (deleteSelectedItems ids st).1 = Normal ()
  ∧ deleted_ids (emitted (deleteSelectedItems ids) st) = ids
  ∧ length (succeeded (st_store st) ids) + length (failed (st_store st) ids)
    = length ids
  ∧ (failed (st_store st) ids ≠ [] →
     List.filter is_toast (emitted (deleteSelectedItems ids) st)
     = [toast_warning
          ("Deleted " +:+ show (length (succeeded (st_store st) ids))
           +:+ " of " +:+ show (length ids) +:+ " chats. "
           +:+ show (length (failed (st_store st) ids)) +:+ " failed.")])
  ∧ st_selectedItems (exec (deleteSelectedItems ids) st) = []
  ∧ st_selectionMode (exec (deleteSelectedItems ids) st) = false.
Proof.
  intros Hdb Hne.
  destruct (deleteSelectedItems_run st ids Hdb Hne) as (_ & Hsel & Hmode & _).
  rewrite deleteSelectedItems_emitted by done.
  split_and!; [| | | | done | done].
  - by rewrite deleteSelectedItems_eq.
  - rewrite <- deleteSelectedItems_emitted by done.
    by apply bulk_delete_run_ids.
  - apply succeeded_failed_length.
  - intros Hfail. rewrite !List.filter_app.
    destruct (loop_effects_quiet ids (st_localStorage st)) as [-> _].
    rewrite summary_toast_warning by done.
    by destruct (active_deleted st ids).
Qed.

Lemma bulk_delete_partial_failure_witness :
  st_selectedItems ex_all_selected = ["a"; "b"; "c"]
  ∧ deleted_ids (emitted (deleteSelectedItems ["a"; "b"; "c"]) ex_all_selected)
    = ["a"; "b"; "c"]
  ∧ List.filter is_toast
      (emitted (deleteSelectedItems ["a"; "b"; "c"]) ex_all_selected)
    = [toast_warning "Deleted 2 of 3 chats. 1 failed."]
  ∧ st_selectedItems (exec (deleteSelectedItems ["a"; "b"; "c"]) ex_all_selected)
    = []
  ∧ st_selectionMode (exec (deleteSelectedItems ["a"; "b"; "c"]) ex_all_selected)
    = false.
Proof.
  destruct (bulk_delete_partial_failure ex_all_selected ["a"; "b"; "c"])
    as (_ & Hids & _ & Hwarn & Hsel & Hmode); [reflexivity | done |].
  split_and!; [reflexivity | exact Hids | | exact Hsel | exact Hmode].
  rewrite Hwarn; [reflexivity | vm_compute; done].
Defined.

(** C6. In a bulk delete with the store available: when the identifier of
    the active chat is among those whose deletion succeeded, the log of the
    handler ends with the reload request followed by one navigation to "/",
    and there is no other navigation; when it is not, there is no navigation
    at all. *)
Theorem bulk_delete_navigation {Store Storage : Type}
    {CS : ChatStore Store} {WS : WebStorage Storage} {SF : SearchFilter}
    (st : State Store Storage) (ids : list string) :
  st_db st = true →
  ((∃ c, st_chatId st = Some c ∧ c ∈ succeeded (st_store st) ids) →
   ∃ before,
     emitted (deleteSelectedItems ids) st
     = before ++ [call_getAll; set_location_pathname "/"]
     ∧ List.filter is_navigation before = [])
  ∧ (¬ (∃ c, st_chatId st = Some c ∧ c ∈ succeeded (st_store st) ids) →
     List.filter is_navigation (emitted (deleteSelectedItems ids) st) = []).
Proof.
  intros Hdb. destruct (decide (ids = [])) as [-> | Hne].
  - split.
    + intros (c & _ & Hin). by apply elem_of_nil in Hin.
    + intros _. unfold emitted, exec.
      rewrite deleteSelectedItems_skip by (by right).
      simpl. by rewrite drop_all.
  - rewrite deleteSelectedItems_emitted by done.
    destruct (loop_effects_quiet ids (st_localStorage st)) as [_ Hquiet].
    destruct (summary_toast_is_toast (st_store st) ids) as (_ & Hnav & _).
    split.
    + intros Hact. apply active_deleted_true in Hact. rewrite Hact.
      exists (loop_effects (st_localStorage st) ids
              ++ [summary_toast (st_store st) ids]).
      split; [by rewrite <- (assoc_L (++)) |].
      rewrite List.filter_app, Hquiet. simpl. by rewrite Hnav.
    + intros Hact. rewrite <- active_deleted_true in Hact.
      apply not_true_is_false in Hact. rewrite Hact.
      rewrite !List.filter_app, Hquiet. simpl. by rewrite Hnav.
Qed.

Lemma bulk_delete_navigation_witness :
  (∃ before,
     emitted (deleteSelectedItems ["a"; "b"]) ex_active
     = before ++ [call_getAll; set_location_pathname "/"]
     ∧ List.filter is_navigation before = [])
  ∧ List.filter is_navigation
      (emitted (deleteSelectedItems ["a"; "b"]) ex_active_failing) = [].
Proof.
  destruct (bulk_delete_navigation ex_active ["a"; "b"]) as [Hnav _];
    [reflexivity |].
  destruct (bulk_delete_navigation ex_active_failing ["a"; "b"])
    as [_ Hnone]; [reflexivity |].
  split.
  - apply Hnav. exists "a". split; [reflexivity | vm_compute; left].
  - apply Hnone. intros (c & Hc & Hin). vm_compute in Hin.
    injection Hc as <-. by apply list_elem_of_singleton in Hin.
Defined.

Example ex_active_log :
  emitted (deleteSelectedItems ["a"; "b"]) ex_active
  = [call_removeItem "snapshot:a"; call_deleteById "a";
     call_removeItem "snapshot:b"; call_deleteById "b";
     toast_success "2 chats deleted successfully";
     call_getAll; set_location_pathname "/"].
Proof. vm_compute. reflexivity. Qed.

(** ** Requesting a bulk delete *)

Section Requests.
Context {Store Storage : Type}.
Context {CS : ChatStore Store} {WS : WebStorage Storage} {SF : SearchFilter}.
Implicit Types (st : State Store Storage) (id : string) (ids : list string).

Lemma filter_includes_nil (selected : list string)
    (items : list ChatHistoryItem) :
  (∀ item, item ∈ items → item_id item ∉ selected) →
  List.filter (λ item, includes selected (item_id item)) items = [].
Proof.
  induction items as [|item items IH]; intros Hnone; [done|].
  simpl. assert (includes selected (item_id item) = false) as ->
    by (apply includes_false, Hnone; left).
  apply IH. intros item' Hin. apply Hnone. by right.
Qed.

Lemma elem_of_selectedChats st item :
  item ∈ selectedChats st ↔
  item ∈ st_list st ∧ item_id item ∈ st_selectedItems st.
Proof.
  unfold selectedChats. rewrite list_elem_of_In, filter_In, includes_true.
  by rewrite <- list_elem_of_In.
Qed.

Lemma handleBulkDeleteClick_accepts st :
  selectedChats st ≠ [] →
  handleBulkDeleteClick st
  = (Normal (), setDialogContent (dialog_bulkDelete (selectedChats st)) st).
Proof.
  intros Hne. unfold handleBulkDeleteClick. run_monad.
  assert (st_selectedItems st ≠ []) as Hsel.
  { intros E. apply Hne. unfold selectedChats. rewrite E.
    apply filter_includes_nil. intros ? _. apply not_elem_of_nil. }
  rewrite bool_decide_eq_false_2
    by (destruct (st_selectedItems st); [done | simpl; lia]).
  rewrite bool_decide_eq_false_2
    by (destruct (selectedChats st); [done | simpl; lia]).
  done.
Qed.

End Requests.

(** C7. Requesting a bulk delete with an empty selection issues one
    informational notice and changes nothing else: no store call, no
    pending confirmation set.  Requesting it when the selection is not empty
    but none of the selected identifiers belongs to an entry of the
    last-loaded list issues one error notice and changes nothing else. *)
Theorem handleBulkDeleteClick_rejects {Store Storage : Type}
    {CS : ChatStore Store} {WS : WebStorage Storage} {SF : SearchFilter}
    (st : State Store Storage) :
  (st_selectedItems st = [] →
   handleBulkDeleteClick st
   = (Normal (),
      put_log (st_log st ++ [toast_info "Select at least one chat to delete"])
        st)
   ∧ emitted handleBulkDeleteClick st
     = [toast_info "Select at least one chat to delete"]
   ∧ st_dialogContent (exec handleBulkDeleteClick st) = st_dialogContent st
   ∧ st_store (exec handleBulkDeleteClick st) = st_store st
   ∧ st_pending (exec handleBulkDeleteClick st) = st_pending st)
  ∧ (st_selectedItems st ≠ [] →
     (∀ item, item ∈ st_list st → item_id item ∉ st_selectedItems st) →
     handleBulkDeleteClick st
     = (Normal (),
        put_log (st_log st ++ [toast_error "Could not find selected chats"]) st)
     ∧ emitted handleBulkDeleteClick st
       = [toast_error "Could not find selected chats"]
     ∧ st_dialogContent (exec handleBulkDeleteClick st) = st_dialogContent st
     ∧ st_store (exec handleBulkDeleteClick st) = st_store st
     ∧ st_pending (exec handleBulkDeleteClick st) = st_pending st).
Proof.
  split.
  - intros Hsel.
    assert (handleBulkDeleteClick st
            = (Normal (),
               put_log (st_log st
                        ++ [toast_info "Select at least one chat to delete"]) st))
      as E by (unfold handleBulkDeleteClick; run_monad; by rewrite Hsel).
    unfold emitted, exec. rewrite E. destruct st. simpl.
    split_and!; try done. apply drop_app_length.
  - intros Hsel Hstale.
    assert (handleBulkDeleteClick st
            = (Normal (),
               put_log (st_log st
                        ++ [toast_error "Could not find selected chats"]) st))
      as E.
    { unfold handleBulkDeleteClick. run_monad.
      rewrite bool_decide_eq_false_2
        by (destruct (st_selectedItems st); [done | simpl; lia]).
      unfold selectedChats. by rewrite filter_includes_nil. }
    unfold emitted, exec. rewrite E. destruct st. simpl.
    split_and!; try done. apply drop_app_length.
Qed.

Lemma handleBulkDeleteClick_rejects_witness :
  emitted handleBulkDeleteClick ex_none_selected
  = [toast_info "Select at least one chat to delete"]
  ∧ st_dialogContent (exec handleBulkDeleteClick ex_none_selected)
    = dialog_null
  ∧ emitted handleBulkDeleteClick ex_unknown_selected
    = [toast_error "Could not find selected chats"]
  ∧ st_dialogContent (exec handleBulkDeleteClick ex_unknown_selected)
    = dialog_null.
Proof.
  destruct (handleBulkDeleteClick_rejects ex_none_selected) as [Hempty _].
  destruct (handleBulkDeleteClick_rejects ex_unknown_selected) as [_ Hstale].
  destruct Hempty as (_ & He & Hd & _); [reflexivity |].
  destruct Hstale as (_ & Hs & Hd' & _).
  - vm_compute. done.
  - intros item Hin Hsel. vm_compute in Hsel.
    apply list_elem_of_singleton in Hsel. vm_compute in Hin.
    repeat (apply elem_of_cons in Hin as [-> | Hin]; [done |]).
    by apply elem_of_nil in Hin.
  - split_and!; [exact He | by rewrite Hd | exact Hs | by rewrite Hd'].
Defined.

(** ** Single-item delete and the reload *)

Section SingleDelete.
Context {Store Storage : Type}.
Context {CS : ChatStore Store} {WS : WebStorage Storage} {SF : SearchFilter}.
Implicit Types (st : State Store Storage) (id : string) (ids : list string).

Lemma settleLoad_pending st outcome rest :
  st_pending st = outcome :: rest →
  st_pending (exec settleLoad st) = rest.
Proof.
  intros E. destruct st; simpl in E; subst.
  unfold settleLoad. run_monad. by destruct outcome.
Qed.

Lemma settleLoad_resolved st entries :
  st_pending st = [Resolved entries] →
  st_list (exec settleLoad st) = List.filter displayable entries.
Proof.
  intros E. destruct st; simpl in E; subst. unfold settleLoad. by run_monad.
Qed.

Lemma settleAll_unfold st outcome rest :
  st_pending st = outcome :: rest →
  settleAll st = Nat.iter (length rest) (exec settleLoad) (exec settleLoad st).
Proof.
  intros E. unfold settleAll. rewrite E. cbn [length].
  apply Nat.iter_succ_r.
Qed.

(** Once every outstanding reload has settled, the list is what the last
    one delivered. *)
Lemma settleAll_last earlier : ∀ st entries,
  st_pending st = earlier ++ [Resolved entries] →
  st_list (settleAll st) = List.filter displayable entries.
Proof.
  induction earlier as [|outcome earlier IH]; intros st entries E.
  - rewrite (settleAll_unfold st _ _ E). simpl. by apply settleLoad_resolved.
  - rewrite (settleAll_unfold st _ _ E).
    pose proof (settleLoad_pending st _ _ E) as E'.
    rewrite <- E'. apply (IH (exec settleLoad st)). exact E'.
Qed.

Lemma loadEntries_run st :
  st_db st = true →
  loadEntries st
  = (Normal (),
     put_pending (st_pending st ++ [getAll (st_store st)])
       (put_log (st_log st ++ [call_getAll]) st)).
Proof.
  intros E. destruct st; simpl in E; subst. unfold loadEntries. by run_monad.
Qed.

Lemma loadEntries_no_db st :
  st_db st = false → loadEntries st = (Normal (), st).
Proof. intros E. unfold loadEntries. run_monad. by rewrite E. Qed.

Lemma deleteItem_failure st item error :
  st_db st = true →
  (deleteById (st_store st) (item_id item)).2 = Rejected error →
  deleteItem item st
  = (Normal (),
     put_pending
       (st_pending st ++ [getAll (deleteById (st_store st) (item_id item)).1])
       (put_log
          (st_log st ++ chat_effects (st_localStorage st) (item_id item)
           ++ [toast_error "Failed to delete conversation"; call_getAll])
          (after_deleteChat st (item_id item)))).
Proof.
  intros Hdb Hrej. unfold deleteItem, try_catch.
  unfold mbind at 1. unfold M_bind at 1.
  rewrite deleteChat_run, Hrej by done.
  unfold after_deleteChat.
  generalize (chat_effects (st_localStorage st) (item_id item)) as effects.
  intros effects. destruct st; simpl in Hdb; subst.
  run_monad. unfold loadEntries. run_monad.
  by rewrite <- !(assoc_L (++)).
Qed.

(** A single-item delete writes the log, the outstanding reloads, the
    store and localStorage, and no cell of the component. *)
Lemma deleteItem_frame st item :
  ∃ log pending store storage,
    exec (deleteItem item) st
    = put_log log
        (put_pending pending (put_store store (put_localStorage storage st))).
Proof.
  unfold exec, deleteItem, try_catch.
  unfold mbind at 1. unfold M_bind at 1.
  destruct (st_db st) eqn:Hdb.
  - rewrite deleteChat_run by done. unfold after_deleteChat.
    generalize (chat_effects (st_localStorage st) (item_id item)) as effects.
    intros effects.
    destruct ((deleteById (st_store st) (item_id item)).2) as [[]|e];
      destruct st; simpl in Hdb; subst; unfold loadEntries; run_monad.
    + destruct (bool_decide _); run_updates;
        eexists _, _, _, _; reflexivity.
    + eexists _, _, _, _; reflexivity.
  - rewrite deleteChat_no_db by done.
    destruct st; simpl in Hdb; subst. unfold loadEntries. run_monad.
    eexists _, _, _, _; reflexivity.
Qed.

Lemma deleteItem_cells st item :
  st_selectedItems (exec (deleteItem item) st) = st_selectedItems st
  ∧ st_selectionMode (exec (deleteItem item) st) = st_selectionMode st
  ∧ st_dialogContent (exec (deleteItem item) st) = st_dialogContent st
  ∧ st_list (exec (deleteItem item) st) = st_list st
  ∧ st_db (exec (deleteItem item) st) = st_db st.
Proof.
  destruct (deleteItem_frame st item) as (log & pending & store & storage & ->).
  by destruct st.
Qed.

End SingleDelete.

(** C9. When a single-item delete is rejected by the store: the handler
    issues the error notice "Failed to delete conversation" and no success
    notice, and then requests the entry list from the store as the failed
    call left it.  Once the outstanding reloads have settled, the list is
    what the store returned (filtered for entries with a urlId and a
    description), so an entry that is still in the store is still shown. *)
Theorem deleteItem_store_failure {Store Storage : Type}
    {CS : ChatStore Store} {WS : WebStorage Storage} {SF : SearchFilter}
    (st : State Store Storage) (item : ChatHistoryItem) (error : Error) :
  st_db st = true →
  (deleteById (st_store st) (item_id item)).2 = Rejected error →
  emitted (deleteItem item) st
  = chat_effects (st_localStorage st) (item_id item)
    ++ [toast_error "Failed to delete conversation"; call_getAll]
  ∧ List.filter is_toast (emitted (deleteItem item) st)
    = [toast_error "Failed to delete conversation"]
  ∧ st_pending (exec (deleteItem item) st)
    = st_pending st ++ [getAll (deleteById (st_store st) (item_id item)).1]
  ∧ (∀ entries,
       getAll (deleteById (st_store st) (item_id item)).1 = Resolved entries →
       st_list (settleAll (exec (deleteItem item) st))
       = List.filter displayable entries
       ∧ ∀ entry, entry ∈ entries → displayable entry = true →
                  entry ∈ st_list (settleAll (exec (deleteItem item) st))).
Proof.
  intros Hdb Hrej.
  assert (emitted (deleteItem item) st
          = chat_effects (st_localStorage st) (item_id item)
            ++ [toast_error "Failed to delete conversation"; call_getAll])
    as Hlog.
  { apply emitted_app. unfold exec.
    rewrite (deleteItem_failure st item error) by done. by destruct st. }
  assert (st_pending (exec (deleteItem item) st)
          = st_pending st
            ++ [getAll (deleteById (st_store st) (item_id item)).1]) as Hpend.
  { unfold exec. rewrite (deleteItem_failure st item error) by done.
    by destruct st. }
  split_and!; [exact Hlog | | exact Hpend |].
  - rewrite Hlog, List.filter_app.
    by destruct (chat_effects_quiet (st_localStorage st) (item_id item))
      as [-> _].
  - intros entries Hget. rewrite Hget in Hpend.
    pose proof (settleAll_last _ _ _ Hpend) as Hlist.
    split; [exact Hlist |].
    intros entry Hin Hshow. rewrite Hlist.
    apply list_elem_of_In, filter_In. by rewrite <- list_elem_of_In.
Qed.

Lemma deleteItem_store_failure_witness :
  emitted (deleteItem (chat "b")) ex_delete_b
  = [call_removeItem "snapshot:b"; call_deleteById "b";
     toast_error "Failed to delete conversation"; call_getAll]
  ∧ st_list ex_delete_b = []
  ∧ st_list (settleAll (exec (deleteItem (chat "b")) ex_delete_b))
    = [chat "a"; chat "b"; chat "c"].
Proof.
  destruct (deleteItem_store_failure ex_delete_b (chat "b")
              {| message := "delete failed" |})
    as (Hlog & _ & _ & Hlist); [reflexivity | reflexivity |].
  split_and!; [exact Hlog | reflexivity |].
  destruct (Hlist [chat "a"; chat "b"; chat "c"]) as [-> _]; reflexivity.
Defined.

(** ** Invariant of the selection *)

Section Invariant.
Context {Store Storage : Type}.
Context {CS : ChatStore Store} {WS : WebStorage Storage} {SF : SearchFilter}.
Implicit Types (st : State Store Storage) (id : string) (ids : list string).

Lemma then_closeDialog (m : M unit) st :
  st_selectedItems (exec (m;; closeDialog) st) = st_selectedItems (exec m st)
  ∧ st_log (exec (m;; closeDialog) st) = st_log (exec m st).
Proof.
  unfold exec, closeDialog, mbind, M_bind, modify.
  destruct (m st) as [[[]|e] st']; [by destruct st' | done].
Qed.

Lemma dialogConfirm_exec st :
  exec dialogConfirm st
  = match st_dialogContent st with
    | dialog_null => st
    | dialog_delete item => exec (deleteItem item;; closeDialog) st
    | dialog_bulkDelete _ =>
      exec (deleteSelectedItems (st_selectedItems st);; closeDialog) st
    end.
Proof.
  unfold exec, dialogConfirm. unfold mbind at 1. unfold M_bind at 1, get at 1.
  by destruct (st_dialogContent st).
Qed.

Lemma deleteSelectedItems_selection st ids :
  st_selectedItems (exec (deleteSelectedItems ids) st) = st_selectedItems st
  ∨ st_selectedItems (exec (deleteSelectedItems ids) st) = [].
Proof.
  destruct (st_db st) eqn:Hdb; [destruct (decide (ids = [])) as [-> | Hne] |].
  - left. unfold exec. by rewrite deleteSelectedItems_skip by (by right).
  - right. by destruct (deleteSelectedItems_run st ids Hdb Hne) as (_ & -> & _).
  - left. unfold exec. by rewrite deleteSelectedItems_skip by (by left).
Qed.

Lemma step_selection st ev :
  st_selectedItems (step st ev) = st_selectedItems st
  ∨ st_selectedItems (step st ev) = []
  ∨ (∃ id, st_selectedItems (step st ev)
           = toggleItemSelection_update id (st_selectedItems st))
  ∨ (∃ visible, st_selectedItems (step st ev)
                = selectAll_update visible (st_selectedItems st)).
Proof.
  destruct ev; unfold step; cbn [handler].
  - left. destruct st. unfold changeOpen, loadEntries. run_monad.
    destruct (negb (bool_decide (_ = v)) && v); [|done].
    by destruct st_db0.
  - left. by destruct st.
  - destruct st. unfold toggleSelectionMode. run_monad.
    destruct st_selectionMode0; [right; by left | by left].
  - right. right. left. exists id. by destruct st.
  - right. right. right. exists (map item_id (filteredList st)).
    by destruct st.
  - left. unfold handleBulkDeleteClick. run_monad.
    destruct (bool_decide (length (st_selectedItems st) = 0));
      [by destruct st|].
    destruct (bool_decide _); by destruct st.
  - left. by destruct st.
  - left. by destruct st.
  - rewrite dialogConfirm_exec.
    destruct (st_dialogContent st) as [|item|items].
    + by left.
    + left. destruct (then_closeDialog (deleteItem item) st) as [-> _].
      by destruct (deleteItem_cells st item) as [-> _].
    + destruct (then_closeDialog (deleteSelectedItems (st_selectedItems st)) st)
        as [-> _].
      destruct (deleteSelectedItems_selection st (st_selectedItems st));
        [by left | right; by left].
  - left. destruct st. unfold settleLoad. run_monad.
    destruct st_pending0 as [|[entries|e] rest]; done.
Qed.

Lemma reachable_run st evs : reachable st → reachable (run st evs).
Proof.
  revert st. induction evs as [|ev evs IH]; intros st Hst; [done|].
  simpl. apply IH. by constructor.
Qed.

Lemma bulk_confirm_log st items :
  st_dialogContent st = dialog_bulkDelete items →
  emitted dialogConfirm st
  = emitted (deleteSelectedItems (st_selectedItems st)) st.
Proof.
  intros Hd. unfold emitted. f_equal.
  destruct (then_closeDialog (deleteSelectedItems (st_selectedItems st)) st)
    as [_ E].
  by rewrite <- E, dialogConfirm_exec, Hd.
Qed.

End Invariant.

(** C10. In every state reachable from the first render, the selection
    array holds no identifier twice. *)
Theorem selectedItems_NoDup {Store Storage : Type}
    {CS : ChatStore Store} {WS : WebStorage Storage} {SF : SearchFilter}
    (st : State Store Storage) :
  reachable st → NoDup (st_selectedItems st).
Proof.
  induction 1 as [db store storage chat | st ev Hst IH].
  - apply NoDup_nil_2.
  - destruct (step_selection st ev) as [-> | [-> | [[id ->] | [visible ->]]]].
    + done.
    + apply NoDup_nil_2.
    + by apply NoDup_toggle.
    + by apply NoDup_selectAll_update.
Qed.

Lemma selectedItems_NoDup_witness :
  st_selectedItems ex_stale_selection = ["c"; "a"]
  ∧ NoDup (st_selectedItems ex_stale_selection).
Proof.
  split; [reflexivity |].
  apply selectedItems_NoDup.
  unfold ex_stale_selection. apply reachable_run. constructor.
Defined.

(** ** Confirming a bulk delete *)

(** C1, as stated, fails.  In [ex_bulk_requested] the pending confirmation
    holds the snapshot with the single entry a, while the selection is c, a;
    confirming submits c and a to the store. *)
Lemma bulk_confirm_snapshot_counterexample :
  reachable ex_bulk_requested
  ∧ st_dialogContent ex_bulk_requested = dialog_bulkDelete [chat "a"]
  ∧ deleted_ids (emitted dialogConfirm ex_bulk_requested) = ["c"; "a"]
  ∧ ¬ (∀ id, id ∈ deleted_ids (emitted dialogConfirm ex_bulk_requested)
             ↔ id ∈ map item_id [chat "a"]).
Proof.
  split_and!.
  - unfold ex_bulk_requested, ex_stale_selection.
    apply reachable_step, reachable_run. constructor.
  - vm_compute. reflexivity.
  - vm_compute. reflexivity.
  - intros Hall. specialize (Hall "c"). destruct Hall as [Hall _].
    assert ("c" ∈ map item_id [chat "a"]) as Hin
      by (apply Hall; vm_compute; left).
    vm_compute in Hin. by apply list_elem_of_singleton in Hin.
Qed.

(** C1, amended.  When a pending bulk-delete confirmation is acted on with
    the store available, the identifiers submitted to the store are the
    selection as it stands at that moment, in order.  The pending
    confirmation holds the snapshot taken when the bulk delete was
    requested: the entries of the list loaded then whose identifier was
    selected then.  The submitted identifiers are those of the snapshot
    exactly when the selection at confirmation consists of the identifiers
    that were selected and resolved at the request. *)
Theorem bulk_confirm_submits_selection {Store Storage : Type}
    {CS : ChatStore Store} {WS : WebStorage Storage} {SF : SearchFilter}
    (requested st : State Store Storage) :
  st_db st = true →
  selectedChats requested ≠ [] →
  st_dialogContent st = st_dialogContent (exec handleBulkDeleteClick requested) →
  st_dialogContent st = dialog_bulkDelete (selectedChats requested)
  ∧ deleted_ids (emitted dialogConfirm st) = st_selectedItems st
  ∧ (∀ id, id ∈ map item_id (selectedChats requested) ↔
           id ∈ st_selectedItems requested
           ∧ id ∈ map item_id (st_list requested))
  ∧ (ids_of (deleted_ids (emitted dialogConfirm st))
     = ids_of (map item_id (selectedChats requested))
     ↔ ∀ id, id ∈ st_selectedItems st ↔
             id ∈ st_selectedItems requested
             ∧ id ∈ map item_id (st_list requested)).
Proof.
  intros Hdb Hne Hdialog.
  assert (st_dialogContent st = dialog_bulkDelete (selectedChats requested))
    as Hd.
  { rewrite Hdialog. unfold exec.
    rewrite handleBulkDeleteClick_accepts by done. by destruct requested. }
  assert (deleted_ids (emitted dialogConfirm st) = st_selectedItems st) as Hsub.
  { rewrite (bulk_confirm_log st _ Hd).
    destruct (decide (st_selectedItems st = [])) as [E | Hsel].
    - rewrite E. unfold emitted, exec.
      rewrite deleteSelectedItems_skip by (by right). simpl.
      by rewrite drop_all.
    - by apply bulk_delete_run_ids. }
  assert (∀ id, id ∈ map item_id (selectedChats requested) ↔
                id ∈ st_selectedItems requested
                ∧ id ∈ map item_id (st_list requested)) as Hsnap.
  { intros id. rewrite !list_elem_of_fmap. split.
    - intros (item & -> & Hin). apply elem_of_selectedChats in Hin as [? ?].
      split; [done | by exists item].
    - intros (Hsel & item & -> & Hin). exists item. split; [done |].
      by apply elem_of_selectedChats. }
  split_and!; [exact Hd | exact Hsub | exact Hsnap |].
  rewrite Hsub. unfold ids_of. split.
  - intros Heq id. rewrite <- Hsnap.
    rewrite <- (elem_of_list_to_set (C := gset string) id (st_selectedItems st)).
    rewrite Heq. apply elem_of_list_to_set.
  - intros Hall. apply set_eq. intros id.
    by rewrite !elem_of_list_to_set, Hsnap.
Qed.

Lemma bulk_confirm_submits_selection_witness :
  st_dialogContent ex_bulk_requested = dialog_bulkDelete [chat "a"]
  ∧ deleted_ids (emitted dialogConfirm ex_bulk_requested) = ["c"; "a"].
Proof.
  destruct (bulk_confirm_submits_selection ex_stale_selection ex_bulk_requested)
    as (Hd & Hsub & _).
  - reflexivity.
  - vm_compute. done.
  - reflexivity.
  - split; [rewrite Hd | rewrite Hsub]; reflexivity.
Defined.

(** ** More on the selection controller *)

Lemma filter_all_excluded (V S : list string) :
  (∀ x, x ∈ S → x ∈ V) →
  filter (λ id, negb (includes V id) = true) S = [].
Proof.
  induction S as [|y S IH]; intros Hsub; [done|].
  rewrite filter_cons_False.
  - apply IH. intros x Hx. apply Hsub. by right.
  - rewrite negb_true_iff, includes_false. intros Hy. apply Hy, Hsub. left.
Qed.

Lemma fold_set_add_split (S V : list string) : ∀ acc,
  fold_left set_add V (S ++ acc)
  = S ++ fold_left set_add (filter (λ id, id ∉ S) V) acc.
Proof.
  induction V as [|x V IH]; intros acc; [done|].
  cbn [fold_left]. destruct (decide (x ∈ S)) as [HxS | HxS].
  - rewrite filter_cons_False by (intros H; by apply H).
    rewrite <- IH. f_equal. unfold set_add.
    assert (includes (S ++ acc) x = true) as ->; [|done].
    apply includes_true, elem_of_app. by left.
  - rewrite filter_cons_True by done. cbn [fold_left].
    rewrite <- IH. f_equal. unfold set_add.
    destruct (includes acc x) eqn:E.
    + assert (includes (S ++ acc) x = true) as ->; [|done].
      apply includes_true, elem_of_app. right. by apply includes_true.
    + assert (includes (S ++ acc) x = false) as ->.
      { apply includes_false. rewrite elem_of_app.
        apply includes_false in E. tauto. }
      by rewrite (assoc_L (++)).
Qed.

Lemma fold_set_add_app (l k : list string) : ∀ acc,
  fold_left set_add (l ++ k) acc = fold_left set_add k (fold_left set_add l acc).
Proof. intros acc. apply fold_left_app. Qed.

Section SelectionExtras.
Context {Store Storage : Type}.
Context {CS : ChatStore Store} {WS : WebStorage Storage} {SF : SearchFilter}.
Implicit Types (st : State Store Storage).

Lemma selectAll_exec st :
  st_selectedItems (exec selectAll st)
  = selectAll_update (map item_id (filteredList st)) (st_selectedItems st).
Proof. by destruct st. Qed.

End SelectionExtras.

(** X13. With a non-empty list of visible identifiers, pressing select-all
    twice undoes itself when every visible identifier was selected to begin
    with (the selection set is back to what it was), and otherwise leaves
    the visible identifiers deselected: the first press selects them all,
    the second removes them again. *)
Theorem selectAll_twice (V S : list string) :
  V ≠ [] →
  ((∀ x, x ∈ V → x ∈ S) →
   ids_of (selectAll_update V (selectAll_update V S)) = ids_of S)
  ∧ (¬ (∀ x, x ∈ V → x ∈ S) →
     ids_of (selectAll_update V (selectAll_update V S))
     = ids_of S ∖ ids_of V).
Proof.
  intros Hne. split.
  - intros Hsub. rewrite (selectAll_update_deselect V S) by done.
    rewrite selectAll_update_union.
    + unfold ids_of. apply set_eq. intros x.
      rewrite !elem_of_list_to_set, elem_of_array_from_set, elem_of_app.
      rewrite list_elem_of_filter, negb_true_iff, includes_false.
      destruct (decide (x ∈ V)); naive_solver.
    + intros [_ Hall]. destruct V as [|v V]; [done|].
      assert (v ∈ v :: V) as Hv by left.
      specialize (Hall v Hv).
      apply list_elem_of_filter in Hall as [Hnot _].
      apply negb_true_iff, includes_false in Hnot. done.
  - intros Hnot. rewrite (selectAll_update_union V S) by tauto.
    rewrite selectAll_update_deselect.
    + unfold ids_of. apply set_eq. intros x.
      rewrite elem_of_difference, !elem_of_list_to_set.
      rewrite list_elem_of_filter, negb_true_iff, includes_false.
      rewrite elem_of_array_from_set, elem_of_app. tauto.
    + done.
    + intros x Hx. apply elem_of_array_from_set, elem_of_app. by right.
Qed.

Lemma selectAll_twice_witness :
  ids_of (selectAll_update ["a"; "b"]
            (selectAll_update ["a"; "b"] ["b"; "z"; "a"]))
  = ids_of ["b"; "z"; "a"]
  ∧ ids_of (selectAll_update ["a"; "b"] (selectAll_update ["a"; "b"] ["z"; "a"]))
    = ids_of ["z"; "a"] ∖ ids_of ["a"; "b"].
Proof.
  split.
  - apply (selectAll_twice ["a"; "b"] ["b"; "z"; "a"]); [done |].
    intros x Hx. set_solver.
  - apply (selectAll_twice ["a"; "b"] ["z"; "a"]); [done |].
    intros Hall. specialize (Hall "b"). set_solver.
Defined.

(** X14. When select-all adds (not every visible identifier is selected
    yet) and the selection holds no duplicates, the selection keeps its
    order and the visible identifiers that were not selected are appended
    behind it, each once, in the order of the visible list. *)
Theorem selectAll_appends (V S : list string) :
  NoDup S →
  ¬ (V ≠ [] ∧ ∀ x, x ∈ V → x ∈ S) →
  selectAll_update V S = S ++ array_from_set (filter (λ id, id ∉ S) V).
Proof.
  intros Hnd Hnot. rewrite selectAll_update_union by done.
  unfold array_from_set. rewrite fold_set_add_app.
  fold (array_from_set S). rewrite array_from_set_NoDup_id by done.
  rewrite <- (app_nil_r S) at 1. apply fold_set_add_split.
Qed.

Lemma selectAll_appends_witness :
  selectAll_update ["a"; "z"; "b"; "a"] ["z"; "c"] = ["z"; "c"; "a"; "b"].
Proof.
  rewrite selectAll_appends; [reflexivity | |].
  - repeat constructor; set_solver.
  - intros [_ Hall]. specialize (Hall "a"). set_solver.
Defined.

(** X17. Pressing the selection-mode button twice brings the mode back to
    what it was and always leaves the selection empty, whichever mode it
    started in; nothing is logged. *)
Theorem toggleSelectionMode_twice {Store Storage : Type}
    {CS : ChatStore Store} {WS : WebStorage Storage} {SF : SearchFilter}
    (st : State Store Storage) :
  st_selectionMode (exec toggleSelectionMode (exec toggleSelectionMode st))
  = st_selectionMode st
  ∧ st_selectedItems (exec toggleSelectionMode (exec toggleSelectionMode st))
    = []
  ∧ st_log (exec toggleSelectionMode (exec toggleSelectionMode st))
    = st_log st.
Proof.
  destruct st as [? ? ? mode ? ? ? ? ? ? ? ?].
  unfold toggleSelectionMode. run_monad. by destruct mode.
Qed.

(** X19. The select-all button reads "deselect all" when the selection and
    the visible list have the same length.  When the selection holds no
    duplicates and only visible identifiers, that caption is right: the
    press empties the selection. *)
Theorem selectAllLabel_deselects {Store Storage : Type}
    {CS : ChatStore Store} {WS : WebStorage Storage} {SF : SearchFilter}
    (st : State Store Storage) :
  NoDup (st_selectedItems st) →
  (∀ id, id ∈ st_selectedItems st → id ∈ map item_id (filteredList st)) →
  selectAllLabel st = label_deselect_all →
  st_selectedItems (exec selectAll st) = [].
Proof.
  intros Hnd Hsub Hlabel. rewrite selectAll_exec.
  unfold selectAllLabel in Hlabel.
  destruct (bool_decide _) eqn:Hlen in Hlabel; [|done].
  apply bool_decide_eq_true in Hlen.
  rewrite <- (length_map item_id (filteredList st)) in Hlen.
  assert (st_selectedItems st ≡ₚ map item_id (filteredList st)) as Hperm.
  { apply submseteq_length_Permutation; [by apply NoDup_submseteq | lia]. }
  destruct (map item_id (filteredList st)) as [|v V] eqn:EV.
  - apply Permutation_nil_r in Hperm. by rewrite Hperm.
  - rewrite selectAll_update_deselect; [by apply filter_all_excluded | done |].
    intros x Hx. by rewrite Hperm.
Qed.

Lemma selectAllLabel_deselects_witness :
  st_selectedItems ex_all_selected = ["a"; "b"; "c"]
  ∧ st_selectedItems (exec selectAll ex_all_selected) = [].
Proof.
  split; [reflexivity |].
  apply selectAllLabel_deselects.
  - change (NoDup ["a"; "b"; "c"]). repeat constructor; set_solver.
  - intros id Hid. exact Hid.
  - reflexivity.
Defined.

(** Outside that case the caption can be wrong: one hidden identifier
    selected and one other entry visible reads "deselect all", and the
    press selects the visible entry. *)
Example selectAllLabel_mismatch :
  selectAllLabel ex_unknown_selected = label_select_all
  ∧ selectAllLabel (step ex_unknown_selected (ev_searchChange "a"))
    = label_deselect_all
  ∧ st_selectedItems
      (run ex_unknown_selected [ev_searchChange "a"; ev_selectAll])
    = ["z"; "a"].
Proof. split_and!; reflexivity. Qed.

(** ** Pointer tracking *)

(** X16. What a mouse move does to the menu: with the settings panel open,
    nothing; otherwise a pointer beyond the menu's right edge by more than
    the exit threshold closes the menu even when it is also within the enter
    threshold of the page's left edge (the later update wins); in every
    other case the menu opens when the pointer is within the enter threshold
    and is left as it is when not, so it is never closed while the menu
    element is not mounted. *)
Theorem onMouseMove_open_spec {N : Type} `{!Coordinate N}
    (isSettingsOpen : bool) (event : MouseEvent N) (menuRight : option N)
    (open : bool) :
  (isSettingsOpen = true →
   onMouseMove_open isSettingsOpen event menuRight open = open)
  ∧ (isSettingsOpen = false →
     ∀ rectRight,
       menuRight = Some rectRight →
       coord_lt (coord_add rectRight (coord_of_nat 20)) (clientX event) = true →
       onMouseMove_open isSettingsOpen event menuRight open = false)
  ∧ (isSettingsOpen = false →
     (∀ rectRight,
        menuRight = Some rectRight →
        coord_lt (coord_add rectRight (coord_of_nat 20)) (clientX event)
        = false) →
     onMouseMove_open isSettingsOpen event menuRight open
     = coord_lt (pageX event) (coord_of_nat 20) || open).
Proof.
  unfold onMouseMove_open. split_and!.
  - by intros ->.
  - intros -> rectRight -> Hexit. by rewrite Hexit.
  - intros -> Hin. destruct menuRight as [rectRight|].
    + rewrite (Hin rectRight eq_refl).
      by destruct (coord_lt (pageX event) (coord_of_nat 20)).
    + by destruct (coord_lt (pageX event) (coord_of_nat 20)).
Qed.

Lemma onMouseMove_open_spec_witness :
  onMouseMove_open true (mkMouseEvent 5%Z 5%Z) (Some 360%Z) false = false
  ∧ onMouseMove_open false (mkMouseEvent 5%Z 500%Z) (Some 360%Z) true = false
  ∧ onMouseMove_open false (mkMouseEvent 5%Z 5%Z) (Some 360%Z) false = true
  ∧ onMouseMove_open false (mkMouseEvent 200%Z 200%Z) None true = true.
Proof.
  split_and!.
  - by apply (onMouseMove_open_spec true (mkMouseEvent 5%Z 5%Z) (Some 360%Z)).
  - by eapply (onMouseMove_open_spec false (mkMouseEvent 5%Z 500%Z)
                 (Some 360%Z) true).
  - destruct (onMouseMove_open_spec false (mkMouseEvent 5%Z 5%Z)
                (Some 360%Z) false) as (_ & _ & H).
    rewrite H; [reflexivity | reflexivity |].
    by intros rectRight [= <-].
  - destruct (onMouseMove_open_spec false (mkMouseEvent 200%Z 200%Z)
                None true) as (_ & _ & H).
    rewrite H; [reflexivity | reflexivity |]. by intros rectRight [=].
Defined.

(** X15. Setting the [open] cell issues a reload exactly when the menu goes
    from closed to open and the database is defined; re-opening an open
    menu, or closing it, requests nothing.  The list itself is not written
    until the reload settles. *)
Theorem changeOpen_reload {Store Storage : Type}
    {CS : ChatStore Store} {WS : WebStorage Storage} {SF : SearchFilter}
    (st : State Store Storage) (v : bool) :
  st_open (exec (changeOpen v) st) = v
  ∧ emitted (changeOpen v) st
    = (if negb (st_open st) && v && st_db st then [call_getAll] else [])
  ∧ st_list (exec (changeOpen v) st) = st_list st
  ∧ st_selectedItems (exec (changeOpen v) st) = st_selectedItems st.
Proof.
  destruct st as [? o ? ? ? ? db ? ? ? ? log].
  unfold emitted, changeOpen, loadEntries. run_monad.
  destruct o, v, db; simpl; split_and!; try done;
    try apply drop_all; apply drop_app_length.
Qed.

(** ** More on deletion *)

Section DeletionExtras.
Context {Store Storage : Type}.
Context {CS : ChatStore Store} {WS : WebStorage Storage} {SF : SearchFilter}.
Implicit Types (st : State Store Storage) (id : string) (ids : list string).

Lemma deleteItem_no_db_eq st item :
  st_db st = false →
  deleteItem item st
  = (Normal (),
     put_log (st_log st ++ [toast_error "Failed to delete conversation"]) st).
Proof.
  intros Hdb. unfold deleteItem, try_catch.
  unfold mbind at 1. unfold M_bind at 1.
  rewrite deleteChat_no_db by done.
  destruct st; simpl in Hdb; subst. unfold loadEntries. by run_monad.
Qed.

Lemma deleteItem_success_eq st item :
  st_db st = true →
  (deleteById (st_store st) (item_id item)).2 = Resolved () →
  deleteItem item st
  = (Normal (),
     put_pending
       (st_pending st ++ [getAll (deleteById (st_store st) (item_id item)).1])
       (put_log
          (st_log st ++ chat_effects (st_localStorage st) (item_id item)
           ++ [toast_success "Chat deleted successfully"; call_getAll]
           ++ (if bool_decide (st_chatId st = Some (item_id item))
               then [set_location_pathname "/"] else []))
          (after_deleteChat st (item_id item)))).
Proof.
  intros Hdb Hok. unfold deleteItem, try_catch.
  unfold mbind at 1. unfold M_bind at 1.
  rewrite deleteChat_run, Hok by done.
  unfold after_deleteChat.
  generalize (chat_effects (st_localStorage st) (item_id item)) as effects.
  intros effects. destruct st; simpl in Hdb; subst.
  run_monad. unfold loadEntries. run_monad.
  destruct (bool_decide _); run_updates;
    rewrite <- ?(assoc_L (++)); simpl; by rewrite ?app_nil_r.
Qed.

Lemma deleteItem_normal st item : (deleteItem item st).1 = Normal ().
Proof.
  destruct (st_db st) eqn:Hdb.
  - destruct ((deleteById (st_store st) (item_id item)).2) as [[]|e] eqn:Hout.
    + by rewrite deleteItem_success_eq.
    + by rewrite (deleteItem_failure st item e).
  - by rewrite deleteItem_no_db_eq.
Qed.

Lemma deleteSelectedItems_normal st ids :
  (deleteSelectedItems ids st).1 = Normal ().
Proof.
  destruct (st_db st) eqn:Hdb; [destruct (decide (ids = [])) as [-> | Hne] |].
  - by rewrite deleteSelectedItems_skip by (by right).
  - by rewrite deleteSelectedItems_eq.
  - by rewrite deleteSelectedItems_skip by (by left).
Qed.

Lemma then_closeDialog_normal (m : M unit) st :
  (m st).1 = Normal () →
  exec (m;; closeDialog) st = setDialogContent dialog_null (exec m st).
Proof.
  unfold exec, closeDialog, mbind, M_bind, modify.
  destruct (m st) as [[[]|e] st']; [done | by intros [=]].
Qed.

Lemma dialog_after_close st : st_dialogContent (setDialogContent dialog_null st)
                             = dialog_null.
Proof. by destruct st. Qed.

Lemma removed_keys_app (l k : list Effect) :
  removed_keys (l ++ k) = removed_keys l ++ removed_keys k.
Proof. unfold removed_keys. apply omap_app. Qed.

Lemma chat_effects_removed_keys (storage : Storage) id :
  removed_keys (chat_effects storage id) = ["snapshot:" +:+ id].
Proof.
  unfold chat_effects.
  by destruct (removeItem storage ("snapshot:" +:+ id)).2.
Qed.

Lemma loop_effects_removed_keys ids : ∀ storage : Storage,
  removed_keys (loop_effects storage ids)
  = map (λ id, "snapshot:" +:+ id) ids.
Proof.
  induction ids as [|id ids IH]; intros storage; [done|].
  cbn [loop_effects map].
  rewrite removed_keys_app, chat_effects_removed_keys, IH. done.
Qed.

Lemma reload_count_app (l k : list Effect) :
  reload_count (l ++ k) = reload_count l + reload_count k.
Proof. unfold reload_count. by rewrite List.filter_app, length_app. Qed.

Lemma chat_effects_reload_count (storage : Storage) id :
  reload_count (chat_effects storage id) = 0.
Proof.
  unfold chat_effects.
  by destruct (removeItem storage ("snapshot:" +:+ id)).2.
Qed.

Lemma loop_effects_reload_count ids : ∀ storage : Storage,
  reload_count (loop_effects storage ids) = 0.
Proof.
  induction ids as [|id ids IH]; intros storage; [done|].
  cbn [loop_effects].
  by rewrite reload_count_app, chat_effects_reload_count, IH.
Qed.

Lemma summary_toast_reload_count (store : Store) ids :
  reload_count [summary_toast store ids] = 0
  ∧ removed_keys [summary_toast store ids] = [].
Proof. unfold summary_toast. by destruct (bool_decide _). Qed.

Lemma failed_nil_succeeded ids : ∀ store : Store,
  failed store ids = [] → succeeded store ids = ids.
Proof.
  induction ids as [|id ids IH]; intros store Hfail; [done|].
  cbn [failed succeeded] in *.
  destruct (resolves store id); [|done].
  simpl in *. f_equal. by apply IH.
Qed.

Lemma summary_toast_success (store : Store) ids :
  failed store ids = [] →
  summary_toast store ids
  = toast_success
      (show (length ids) +:+ " chat"
       +:+ (if bool_decide (length ids = 1) then "" else "s")
       +:+ " deleted successfully").
Proof.
  intros Hfail. unfold summary_toast.
  by rewrite Hfail, (failed_nil_succeeded ids store Hfail).
Qed.

Lemma selectedChats_sublist st : sublist (selectedChats st) (st_list st).
Proof.
  unfold selectedChats. induction (st_list st) as [|item items IH]; [done|].
  simpl. destruct (includes _ _); by constructor.
Qed.

End DeletionExtras.

(** X4. A single-item delete without a database reports "Failed to delete
    conversation" and does nothing else: localStorage and the store are not
    called, no reload is requested, no state is written. *)
Theorem deleteItem_without_db {Store Storage : Type}
    {CS : ChatStore Store} {WS : WebStorage Storage} {SF : SearchFilter}
    (st : State Store Storage) (item : ChatHistoryItem) :
  st_db st = false →
  exec (deleteItem item) st
  = put_log (st_log st ++ [toast_error "Failed to delete conversation"]) st
  ∧ emitted (deleteItem item) st
    = [toast_error "Failed to delete conversation"].
Proof.
  intros Hdb. unfold emitted, exec. rewrite deleteItem_no_db_eq by done.
  split; [done |]. destruct st. simpl. apply drop_app_length.
Qed.

Lemma deleteItem_without_db_witness :
  emitted (deleteItem (chat "a")) ex_no_db_delete
  = [toast_error "Failed to delete conversation"]
  ∧ st_pending (exec (deleteItem (chat "a")) ex_no_db_delete) = [].
Proof.
  destruct (deleteItem_without_db ex_no_db_delete (chat "a")) as [Hst Hlog];
    [reflexivity |].
  split; [exact Hlog | by rewrite Hst].
Defined.

(** X5. A single-item delete issues exactly one notice: the success notice
    when the database is defined and the store deletion resolves, the error
    notice otherwise.  It navigates to "/" exactly when it succeeded and the
    deleted item is the active chat. *)
Theorem deleteItem_notice_and_navigation {Store Storage : Type}
    {CS : ChatStore Store} {WS : WebStorage Storage} {SF : SearchFilter}
    (st : State Store Storage) (item : ChatHistoryItem) :
  List.filter is_toast (emitted (deleteItem item) st)
  = [if st_db st && resolves (st_store st) (item_id item)
     then toast_success "Chat deleted successfully"
     else toast_error "Failed to delete conversation"]
  ∧ List.filter is_navigation (emitted (deleteItem item) st)
    = (if st_db st && resolves (st_store st) (item_id item)
          && bool_decide (st_chatId st = Some (item_id item))
       then [set_location_pathname "/"]
       else []).
Proof.
  destruct (chat_effects_quiet (st_localStorage st) (item_id item))
    as [Htoast Hnav].
  unfold resolves. destruct (st_db st) eqn:Hdb.
  - destruct ((deleteById (st_store st) (item_id item)).2) as [[]|e] eqn:Hout.
    + rewrite (emitted_app (deleteItem item) st
                 (chat_effects (st_localStorage st) (item_id item)
                  ++ [toast_success "Chat deleted successfully"; call_getAll]
                  ++ (if bool_decide (st_chatId st = Some (item_id item))
                      then [set_location_pathname "/"] else []))).
      * rewrite !List.filter_app, Htoast, Hnav.
        by destruct (bool_decide _).
      * unfold exec. rewrite deleteItem_success_eq by done. by destruct st.
    + rewrite (emitted_app (deleteItem item) st
                 (chat_effects (st_localStorage st) (item_id item)
                  ++ [toast_error "Failed to delete conversation";
                      call_getAll])).
      * by rewrite !List.filter_app, Htoast, Hnav.
      * unfold exec. rewrite (deleteItem_failure st item e) by done.
        by destruct st.
  - rewrite (emitted_app (deleteItem item) st
               [toast_error "Failed to delete conversation"]); [done |].
    unfold exec. rewrite deleteItem_no_db_eq by done. by destruct st.
Qed.

(** X7. With the database defined, [deleteChat] removes the cached snapshot
    first and asks the store last, and localStorage is left as that removal
    left it whatever the store then answers: the snapshot is gone also when
    the store deletion fails. *)
Theorem deleteChat_removes_snapshot_first {Store Storage : Type}
    {CS : ChatStore Store} {WS : WebStorage Storage} {SF : SearchFilter}
    (st : State Store Storage) (id : string) :
  st_db st = true →
  (∃ between,
     emitted (deleteChat id) st
     = call_removeItem ("snapshot:" +:+ id) :: between ++ [call_deleteById id]
     ∧ deleted_ids between = [] ∧ removed_keys between = [])
  ∧ st_localStorage (exec (deleteChat id) st)
    = (removeItem (st_localStorage st) ("snapshot:" +:+ id)).1.
Proof.
  intros Hdb. unfold emitted, exec. rewrite deleteChat_run by done.
  cbv [fst snd]. split.
  - rewrite after_deleteChat_log, drop_app_length. unfold chat_effects.
    eexists. split; [reflexivity |].
    by destruct (removeItem (st_localStorage st) ("snapshot:" +:+ id)).2.
  - by destruct st.
Qed.

Lemma deleteChat_removes_snapshot_first_witness :
  ls_entries (st_localStorage ex_cached_b) = {[ "snapshot:b" := "{}" ]}
  ∧ (deleteChat "b" ex_cached_b).1 = Thrown {| message := "delete failed" |}
  ∧ ls_entries (st_localStorage (exec (deleteChat "b") ex_cached_b)) = ∅.
Proof.
  destruct (deleteChat_removes_snapshot_first ex_cached_b "b") as [_ Hls];
    [reflexivity |].
  split_and!; [reflexivity | reflexivity |]. rewrite Hls.
  apply (delete_singleton_eq (M := gmap string)).
Defined.

(** X18. A bulk delete that passes its precondition calls
    [localStorage.removeItem] once for every identifier of the list, in
    order, with the key "snapshot:" followed by the identifier, whether or
    not the identifier's store deletion then succeeds. *)
Theorem bulk_delete_snapshot_keys {Store Storage : Type}
    {CS : ChatStore Store} {WS : WebStorage Storage} {SF : SearchFilter}
    (st : State Store Storage) (ids : list string) :
  st_db st = true → ids ≠ [] →
  removed_keys (emitted (deleteSelectedItems ids) st)
  = map (λ id, "snapshot:" +:+ id) ids.
Proof.
  intros Hdb Hne. rewrite deleteSelectedItems_emitted by done.
  rewrite !removed_keys_app, loop_effects_removed_keys.
  destruct (summary_toast_reload_count (st_store st) ids) as [_ Hs].
  change [summary_toast (st_store st) ids; call_getAll]
    with ([summary_toast (st_store st) ids] ++ [call_getAll]).
  rewrite removed_keys_app, Hs.
  destruct (active_deleted st ids); simpl; by rewrite app_nil_r.
Qed.

Lemma bulk_delete_snapshot_keys_witness :
  removed_keys (emitted (deleteSelectedItems ["a"; "b"; "c"]) ex_all_selected)
  = ["snapshot:a"; "snapshot:b"; "snapshot:c"].
Proof.
  by rewrite (bulk_delete_snapshot_keys ex_all_selected ["a"; "b"; "c"]).
Defined.

(** X9. When every store deletion of a bulk delete succeeds, the only
    notice is the success notice with the number of identifiers requested,
    worded "1 chat deleted successfully" for one and "n chats deleted
    successfully" otherwise. *)
Theorem bulk_delete_all_succeed {Store Storage : Type}
    {CS : ChatStore Store} {WS : WebStorage Storage} {SF : SearchFilter}
    (st : State Store Storage) (ids : list string) :
  st_db st = true → ids ≠ [] →
  failed (st_store st) ids = [] →
  succeeded (st_store st) ids = ids
  ∧ List.filter is_toast (emitted (deleteSelectedItems ids) st)
    = [toast_success
         (show (length ids) +:+ " chat"
          +:+ (if bool_decide (length ids = 1) then "" else "s")
          +:+ " deleted successfully")].
Proof.
  intros Hdb Hne Hfail. split; [by apply failed_nil_succeeded |].
  rewrite deleteSelectedItems_emitted by done.
  rewrite !List.filter_app.
  destruct (loop_effects_quiet ids (st_localStorage st)) as [-> _].
  rewrite summary_toast_success by done.
  by destruct (active_deleted st ids).
Qed.

Lemma bulk_delete_all_succeed_witness :
  List.filter is_toast (emitted (deleteSelectedItems ["c"]) ex_two_selected)
  = [toast_success "1 chat deleted successfully"]
  ∧ List.filter is_toast
      (emitted (deleteSelectedItems ["c"; "a"]) ex_two_selected)
    = [toast_success "2 chats deleted successfully"].
Proof.
  split.
  - destruct (bulk_delete_all_succeed ex_two_selected ["c"]) as [_ ->];
      [reflexivity | done | reflexivity | reflexivity].
  - destruct (bulk_delete_all_succeed ex_two_selected ["c"; "a"]) as [_ ->];
      [reflexivity | done | reflexivity | reflexivity].
Defined.

(** X10. A bulk delete that passes its precondition requests the entry
    list exactly once, after the last deletion: the request reads the store
    as the deletions left it, and once the outstanding reloads have settled
    the list is what that request returned, filtered for entries with a
    urlId and a description. *)
Theorem bulk_delete_reload {Store Storage : Type}
    {CS : ChatStore Store} {WS : WebStorage Storage} {SF : SearchFilter}
    (st : State Store Storage) (ids : list string) :
  st_db st = true → ids ≠ [] →
  reload_count (emitted (deleteSelectedItems ids) st) = 1
  ∧ st_pending (exec (deleteSelectedItems ids) st)
    = st_pending st ++ [getAll (store_after (st_store st) ids)]
  ∧ (∀ entries,
       getAll (store_after (st_store st) ids) = Resolved entries →
       st_list (settleAll (exec (deleteSelectedItems ids) st))
       = List.filter displayable entries).
Proof.
  intros Hdb Hne.
  destruct (deleteSelectedItems_run st ids Hdb Hne)
    as (_ & _ & _ & _ & Hpend & _).
  split_and!; [| exact Hpend |].
  - rewrite deleteSelectedItems_emitted by done.
    rewrite !reload_count_app, loop_effects_reload_count.
    destruct (summary_toast_reload_count (st_store st) ids) as [Hs _].
    change [summary_toast (st_store st) ids; call_getAll]
      with ([summary_toast (st_store st) ids] ++ [call_getAll]).
    rewrite reload_count_app, Hs. by destruct (active_deleted st ids).
  - intros entries Hget. rewrite Hget in Hpend.
    exact (settleAll_last _ _ _ Hpend).
Qed.

Lemma bulk_delete_reload_witness :
  st_list ex_all_selected = [chat "a"; chat "b"; chat "c"]
  ∧ st_list (settleAll (exec (deleteSelectedItems ["a"; "b"; "c"])
                          ex_all_selected))
    = [chat "b"].
Proof.
  split; [reflexivity |].
  destruct (bulk_delete_reload ex_all_selected ["a"; "b"; "c"])
    as (_ & _ & Hlist); [reflexivity | done |].
  by rewrite (Hlist [chat "b"]).
Defined.

(** ** The dialog *)

Section DialogExtras.
Context {Store Storage : Type}.
Context {CS : ChatStore Store} {WS : WebStorage Storage} {SF : SearchFilter}.
Implicit Types (st : State Store Storage) (id : string) (ids : list string).

Lemma dialogConfirm_delete_exec st item :
  st_dialogContent st = dialog_delete item →
  exec dialogConfirm st
  = setDialogContent dialog_null (exec (deleteItem item) st).
Proof.
  intros Hd. rewrite dialogConfirm_exec, Hd.
  apply then_closeDialog_normal, deleteItem_normal.
Qed.

Lemma dialogConfirm_bulk_exec st items :
  st_dialogContent st = dialog_bulkDelete items →
  exec dialogConfirm st
  = setDialogContent dialog_null
      (exec (deleteSelectedItems (st_selectedItems st)) st).
Proof.
  intros Hd. rewrite dialogConfirm_exec, Hd.
  apply then_closeDialog_normal, deleteSelectedItems_normal.
Qed.

Lemma closed_log st : st_log (setDialogContent dialog_null st) = st_log st.
Proof. by destruct st. Qed.

End DialogExtras.

(** X11. Pressing the dialog's danger button always leaves no dialog
    pending, whichever dialog was open and however the deletion went. *)
Theorem dialogConfirm_closes {Store Storage : Type}
    {CS : ChatStore Store} {WS : WebStorage Storage} {SF : SearchFilter}
    (st : State Store Storage) :
  st_dialogContent (exec dialogConfirm st) = dialog_null.
Proof.
  destruct (st_dialogContent st) as [|item|items] eqn:Hd.
  - by rewrite dialogConfirm_exec, Hd.
  - rewrite (dialogConfirm_delete_exec st item Hd). apply dialog_after_close.
  - rewrite (dialogConfirm_bulk_exec st items Hd). apply dialog_after_close.
Qed.

(** X6. Confirming a single-item delete never writes the selection, the
    selection mode or the entry list: an identifier that was selected stays
    selected after its chat has been deleted, and the list keeps showing the
    entry until the reload settles. *)
Theorem dialogConfirm_delete_keeps_selection {Store Storage : Type}
    {CS : ChatStore Store} {WS : WebStorage Storage} {SF : SearchFilter}
    (st : State Store Storage) (item : ChatHistoryItem) :
  st_dialogContent st = dialog_delete item →
  st_selectedItems (exec dialogConfirm st) = st_selectedItems st
  ∧ st_selectionMode (exec dialogConfirm st) = st_selectionMode st
  ∧ st_list (exec dialogConfirm st) = st_list st.
Proof.
  intros Hd. rewrite (dialogConfirm_delete_exec st item Hd).
  destruct (deleteItem_frame st item) as (log & pending & store & storage & ->).
  by destruct st.
Qed.

Lemma dialogConfirm_delete_keeps_selection_witness :
  st_selectedItems (exec dialogConfirm ex_delete_selected) = ["a"; "c"]
  ∧ mem_items (st_store (exec dialogConfirm ex_delete_selected))
    = [chat "b"; chat "c"]
  ∧ st_list (exec dialogConfirm ex_delete_selected)
    = [chat "a"; chat "b"; chat "c"]
  ∧ st_list (settleAll (exec dialogConfirm ex_delete_selected))
    = [chat "b"; chat "c"].
Proof.
  destruct (dialogConfirm_delete_keeps_selection ex_delete_selected (chat "a"))
    as (Hsel & _ & Hlist); [reflexivity |].
  split_and!; [by rewrite Hsel | reflexivity | by rewrite Hlist | reflexivity].
Defined.

(** X8. Confirming a bulk delete while the database is undefined, or with
    nothing selected, only closes the dialog: no notice, no store or
    localStorage call, and the selection and the selection mode stay as
    they are. *)
Theorem dialogConfirm_bulk_precondition {Store Storage : Type}
    {CS : ChatStore Store} {WS : WebStorage Storage} {SF : SearchFilter}
    (st : State Store Storage) (items : list ChatHistoryItem) :
  st_dialogContent st = dialog_bulkDelete items →
  st_db st = false ∨ st_selectedItems st = [] →
  exec dialogConfirm st = setDialogContent dialog_null st
  ∧ emitted dialogConfirm st = [].
Proof.
  intros Hd Hpre.
  assert (exec dialogConfirm st = setDialogContent dialog_null st) as E.
  { rewrite (dialogConfirm_bulk_exec st items Hd). unfold exec.
    by rewrite deleteSelectedItems_skip. }
  split; [exact E |].
  unfold emitted. rewrite E, closed_log. apply drop_all.
Qed.

Lemma dialogConfirm_bulk_precondition_witness :
  emitted dialogConfirm ex_no_db_bulk = []
  ∧ st_selectedItems (exec dialogConfirm ex_no_db_bulk) = ["a"]
  ∧ st_selectionMode (exec dialogConfirm ex_no_db_bulk) = true
  ∧ st_dialogContent (exec dialogConfirm ex_no_db_bulk) = dialog_null.
Proof.
  destruct (dialogConfirm_bulk_precondition ex_no_db_bulk [chat "a"])
    as [Hst Hlog]; [reflexivity | by left |].
  split_and!; [exact Hlog | by rewrite Hst ..].
Defined.

(** X12. When at least one selected identifier belongs to an entry of the
    list, requesting a bulk delete stores the confirmation and does nothing
    else: no notice and no call.  The snapshot holds exactly the entries of
    the list whose identifier is selected, in the order of the list. *)
Theorem bulk_request_snapshot {Store Storage : Type}
    {CS : ChatStore Store} {WS : WebStorage Storage} {SF : SearchFilter}
    (st : State Store Storage) :
  selectedChats st ≠ [] →
  exec handleBulkDeleteClick st
  = setDialogContent (dialog_bulkDelete (selectedChats st)) st
  ∧ emitted handleBulkDeleteClick st = []
  ∧ sublist (selectedChats st) (st_list st)
  ∧ (∀ item, item ∈ selectedChats st ↔
             item ∈ st_list st ∧ item_id item ∈ st_selectedItems st).
Proof.
  intros Hne.
  assert (exec handleBulkDeleteClick st
          = setDialogContent (dialog_bulkDelete (selectedChats st)) st) as E
    by (unfold exec; by rewrite handleBulkDeleteClick_accepts).
  split_and!; [exact E | | apply selectedChats_sublist |].
  - unfold emitted. rewrite E. destruct st. simpl. apply drop_all.
  - intros item. apply elem_of_selectedChats.
Qed.

Lemma bulk_request_snapshot_witness :
  st_selectedItems ex_two_selected = ["c"; "a"]
  ∧ st_dialogContent (exec handleBulkDeleteClick ex_two_selected)
    = dialog_bulkDelete [chat "a"; chat "c"].
Proof.
  destruct (bulk_request_snapshot ex_two_selected) as (Hst & _);
    [vm_compute; done |].
  split; [reflexivity | by rewrite Hst].
Defined.

(** ** Reloading the list *)

(** X2. A reload issued while none is outstanding, once settled: without a
    database nothing at all happens; when the store answers, the list is
    replaced by the answer's entries that have a urlId and a description and
    nothing is notified; when the store fails, its error message is shown
    as an error notice and the list is left as it was. *)
Theorem reload_outcomes {Store Storage : Type}
    {CS : ChatStore Store} {WS : WebStorage Storage} {SF : SearchFilter}
    (st : State Store Storage) :
  st_pending st = [] →
  (st_db st = false → exec settleLoad (exec loadEntries st) = st)
  ∧ (st_db st = true →
     ∀ entries,
       getAll (st_store st) = Resolved entries →
       exec settleLoad (exec loadEntries st)
       = setList (List.filter displayable entries)
           (put_log (st_log st ++ [call_getAll]) st))
  ∧ (st_db st = true →
     ∀ error,
       getAll (st_store st) = Rejected error →
       exec settleLoad (exec loadEntries st)
       = put_log (st_log st ++ [call_getAll; toast_error (message error)]) st).
Proof.
  intros Hpend. destruct st; simpl in Hpend; subst.
  unfold loadEntries, settleLoad. split_and!.
  - simpl. intros ->. by run_monad.
  - simpl. intros -> entries Hget. run_monad. by rewrite Hget.
  - simpl. intros -> error Hget. run_monad. rewrite Hget. run_updates.
    by rewrite <- (assoc_L (++)).
Qed.

Lemma reload_outcomes_witness :
  st_list (exec settleLoad (exec loadEntries ex_with_draft))
  = [chat "a"; chat "b"]
  ∧ exec settleLoad (exec loadEntries ex_no_db_bulk) = ex_no_db_bulk.
Proof.
  destruct (reload_outcomes ex_with_draft) as (_ & Hok & _); [reflexivity |].
  destruct (reload_outcomes ex_no_db_bulk) as (Hnone & _); [reflexivity |].
  split.
  - rewrite (Hok eq_refl (mem_items store_with_draft) eq_refl). reflexivity.
  - by apply Hnone.
Defined.

(** ** Invariants of the list and of the pending confirmation *)

Section ListInvariant.
Context {Store Storage : Type}.
Context {CS : ChatStore Store} {WS : WebStorage Storage} {SF : SearchFilter}.
Implicit Types (st : State Store Storage) (id : string) (ids : list string).

Lemma deleteSelectedItems_list st ids :
  st_list (exec (deleteSelectedItems ids) st) = st_list st.
Proof.
  destruct (st_db st) eqn:Hdb; [destruct (decide (ids = [])) as [-> | Hne] |].
  - unfold exec. by rewrite deleteSelectedItems_skip by (by right).
  - by destruct (deleteSelectedItems_run st ids Hdb Hne)
      as (_ & _ & _ & _ & _ & _ & ->).
  - unfold exec. by rewrite deleteSelectedItems_skip by (by left).
Qed.

Lemma closed_list st : st_list (setDialogContent dialog_null st) = st_list st.
Proof. by destruct st. Qed.

Lemma step_list st ev :
  st_list (step st ev) = st_list st
  ∨ ∃ entries, st_list (step st ev) = List.filter displayable entries.
Proof.
  destruct ev; unfold step; cbn [handler].
  - left. destruct st. unfold changeOpen, loadEntries. run_monad.
    destruct (negb (bool_decide (_ = v)) && v); [|done].
    by destruct st_db0.
  - left. by destruct st.
  - left. destruct st. unfold toggleSelectionMode. run_monad.
    by destruct st_selectionMode0.
  - left. by destruct st.
  - left. by destruct st.
  - left. unfold handleBulkDeleteClick. run_monad.
    destruct (bool_decide (length (st_selectedItems st) = 0));
      [by destruct st|].
    destruct (bool_decide _); by destruct st.
  - left. by destruct st.
  - left. by destruct st.
  - left. destruct (st_dialogContent st) as [|item|items] eqn:Hd.
    + by rewrite dialogConfirm_exec, Hd.
    + rewrite (dialogConfirm_delete_exec st item Hd), closed_list.
      by destruct (deleteItem_cells st item) as (_ & _ & _ & -> & _).
    + rewrite (dialogConfirm_bulk_exec st items Hd), closed_list.
      apply deleteSelectedItems_list.
  - destruct st. unfold settleLoad. run_monad.
    destruct st_pending0 as [|[entries|e] rest]; [by left | | by left].
    right. by exists entries.
Qed.

Lemma step_dialog st ev :
  st_dialogContent (step st ev) = st_dialogContent st
  ∨ st_dialogContent (step st ev) = dialog_null
  ∨ (∃ item, st_dialogContent (step st ev) = dialog_delete item)
  ∨ (selectedChats st ≠ []
     ∧ st_dialogContent (step st ev) = dialog_bulkDelete (selectedChats st)).
Proof.
  destruct ev; unfold step; cbn [handler].
  - left. destruct st. unfold changeOpen, loadEntries. run_monad.
    destruct (negb (bool_decide (_ = v)) && v); [|done].
    by destruct st_db0.
  - left. by destruct st.
  - left. destruct st. unfold toggleSelectionMode. run_monad.
    by destruct st_selectionMode0.
  - left. by destruct st.
  - left. by destruct st.
  - unfold handleBulkDeleteClick. run_monad.
    destruct (bool_decide (length (st_selectedItems st) = 0));
      [left; by destruct st|].
    destruct (bool_decide (length (selectedChats st) = 0)) eqn:E;
      [left; by destruct st|].
    right. right. right. split.
    + apply bool_decide_eq_false in E. intros Hnil. apply E. by rewrite Hnil.
    + by destruct st.
  - right. right. left. exists item. by destruct st.
  - right. left. by destruct st.
  - destruct (st_dialogContent st) as [|item|items] eqn:Hd.
    + left. by rewrite dialogConfirm_exec, Hd.
    + right. left. rewrite (dialogConfirm_delete_exec st item Hd).
      apply dialog_after_close.
    + right. left. rewrite (dialogConfirm_bulk_exec st items Hd).
      apply dialog_after_close.
  - left. destruct st. unfold settleLoad. run_monad.
    destruct st_pending0 as [|[entries|e] rest]; done.
Qed.

Lemma reachable_displayable st :
  reachable st →
  (∀ item, item ∈ st_list st → displayable item = true)
  ∧ (∀ items,
       st_dialogContent st = dialog_bulkDelete items →
       items ≠ [] ∧ ∀ item, item ∈ items → displayable item = true).
Proof.
  induction 1 as [db store storage chat | st ev Hst [IHlist IHdialog]].
  - split; [intros item Hin; by apply elem_of_nil in Hin | done].
  - split.
    + intros item Hin. destruct (step_list st ev) as [E | [entries E]];
        rewrite E in Hin; [by apply IHlist |].
      apply list_elem_of_In, filter_In in Hin. tauto.
    + intros items Hd.
      destruct (step_dialog st ev) as [E | [E | [[item E] | [Hne E]]]];
        rewrite E in Hd; [by apply IHdialog | done | done |].
      injection Hd as <-. split; [done |].
      intros item Hin. apply elem_of_selectedChats in Hin as [Hin _].
      by apply IHlist.
Qed.

End ListInvariant.

(** X1. In every state reachable from the first render, every entry of the
    list has a non-empty urlId and a non-empty description: the list is only
    ever written by a settled reload, which filters on both. *)
Theorem list_entries_displayable {Store Storage : Type}
    {CS : ChatStore Store} {WS : WebStorage Storage} {SF : SearchFilter}
    (st : State Store Storage) (item : ChatHistoryItem) :
  reachable st → item ∈ st_list st →
  truthy (item_urlId item) = true ∧ truthy (item_description item) = true.
Proof.
  intros Hst Hin. destruct (reachable_displayable st Hst) as [Hlist _].
  specialize (Hlist item Hin). unfold displayable in Hlist.
  by apply andb_true_iff in Hlist.
Qed.

Lemma list_entries_displayable_witness :
  length (mem_items (st_store ex_draft_loaded)) = 3
  ∧ st_list ex_draft_loaded = [chat "a"; chat "b"]
  ∧ truthy (item_description (chat "b")) = true.
Proof.
  split_and!; [reflexivity | reflexivity |].
  apply (list_entries_displayable ex_draft_loaded (chat "b")).
  - unfold ex_draft_loaded, ex_with_draft. apply reachable_run. constructor.
  - change (chat "b" ∈ [chat "a"; chat "b"]). set_solver.
Defined.

(** X3. In every state reachable from the first render, a pending
    bulk-delete confirmation never holds an empty list, and every entry it
    holds has a non-empty urlId and description: the dialog always has at
    least one description to show. *)
Theorem bulk_dialog_never_empty {Store Storage : Type}
    {CS : ChatStore Store} {WS : WebStorage Storage} {SF : SearchFilter}
    (st : State Store Storage) (items : list ChatHistoryItem) :
  reachable st →
  st_dialogContent st = dialog_bulkDelete items →
  items ≠ []
  ∧ ∀ item, item ∈ items →
            truthy (item_urlId item) = true
            ∧ truthy (item_description item) = true.
Proof.
  intros Hst Hd. destruct (reachable_displayable st Hst) as [_ Hdialog].
  destruct (Hdialog items Hd) as [Hne Hshow]. split; [done |].
  intros item Hin. specialize (Hshow item Hin). unfold displayable in Hshow.
  by apply andb_true_iff in Hshow.
Qed.

Lemma bulk_dialog_never_empty_witness :
  st_dialogContent ex_bulk_requested = dialog_bulkDelete [chat "a"]
  ∧ [chat "a"] ≠ [].
Proof.
  split; [reflexivity |].
  apply (bulk_dialog_never_empty ex_bulk_requested [chat "a"]).
  - unfold ex_bulk_requested, ex_stale_selection.
    apply reachable_step, reachable_run. constructor.
  - reflexivity.
Defined.

(** ** Request, then cancel or confirm *)

Section Flows.
Context {Store Storage : Type}.
Context {CS : ChatStore Store} {WS : WebStorage Storage} {SF : SearchFilter}.
Implicit Types (st : State Store Storage) (id : string) (ids : list string).

Lemma closed_cells st :
  st_selectedItems (setDialogContent dialog_null st) = st_selectedItems st
  ∧ st_selectionMode (setDialogContent dialog_null st) = st_selectionMode st.
Proof. by destruct st. Qed.

Lemma selectedChats_selection st :
  selectedChats st ≠ [] → st_selectedItems st ≠ [].
Proof.
  intros Hne E. apply Hne. unfold selectedChats. rewrite E.
  apply filter_includes_nil. intros ? _. apply not_elem_of_nil.
Qed.

Lemma bulk_click_step st :
  selectedChats st ≠ [] →
  step st ev_bulkDeleteClick
  = setDialogContent (dialog_bulkDelete (selectedChats st)) st.
Proof.
  intros Hne. unfold step, exec. cbn [handler].
  by rewrite handleBulkDeleteClick_accepts.
Qed.

End Flows.

(** X21. Cancelling is an exact undo of a request: from a state with no
    dialog pending, opening the delete dialog of any entry, or requesting a
    bulk delete that is accepted, and then closing the dialog gives back
    the very same state; nothing is logged. *)
Theorem request_then_cancel {Store Storage : Type}
    {CS : ChatStore Store} {WS : WebStorage Storage} {SF : SearchFilter}
    (st : State Store Storage) :
  st_dialogContent st = dialog_null →
  (∀ item, run st [ev_deleteClick item; ev_dialogClose] = st)
  ∧ (selectedChats st ≠ [] →
     run st [ev_bulkDeleteClick; ev_dialogClose] = st).
Proof.
  intros Hd. split.
  - intros item. destruct st; simpl in Hd; subst. reflexivity.
  - intros Hne.
    change (run st [ev_bulkDeleteClick; ev_dialogClose])
      with (step (step st ev_bulkDeleteClick) ev_dialogClose).
    rewrite bulk_click_step by done.
    destruct st; simpl in Hd; subst. reflexivity.
Qed.

Lemma request_then_cancel_witness :
  run ex_two_selected [ev_deleteClick (chat "b"); ev_dialogClose]
  = ex_two_selected
  ∧ run ex_two_selected [ev_bulkDeleteClick; ev_dialogClose] = ex_two_selected.
Proof.
  destruct (request_then_cancel ex_two_selected) as [Hone Hbulk];
    [reflexivity |].
  split; [apply Hone | apply Hbulk]. vm_compute. done.
Defined.

(** X20. Request and confirm, with the database defined and at least one
    selected identifier resolving: the store deletion is issued for every
    identifier of the selection, in order, and afterwards no dialog is
    pending, the selection is empty and selection mode is off. *)
Theorem bulk_request_and_confirm {Store Storage : Type}
    {CS : ChatStore Store} {WS : WebStorage Storage} {SF : SearchFilter}
    (st : State Store Storage) :
  st_db st = true →
  selectedChats st ≠ [] →
  st_dialogContent (run st [ev_bulkDeleteClick; ev_dialogConfirm]) = dialog_null
  ∧ st_selectedItems (run st [ev_bulkDeleteClick; ev_dialogConfirm]) = []
  ∧ st_selectionMode (run st [ev_bulkDeleteClick; ev_dialogConfirm]) = false
  ∧ deleted_ids
      (drop (length (st_log st))
         (st_log (run st [ev_bulkDeleteClick; ev_dialogConfirm])))
    = st_selectedItems st.
Proof.
  intros Hdb Hne.
  pose proof (selectedChats_selection st Hne) as Hsel.
  change (run st [ev_bulkDeleteClick; ev_dialogConfirm])
    with (step (step st ev_bulkDeleteClick) ev_dialogConfirm).
  rewrite bulk_click_step by done.
  set (st1 := setDialogContent (dialog_bulkDelete (selectedChats st)) st).
  assert (st_db st1 = true) as Hdb1 by (subst st1; by destruct st).
  assert (st_selectedItems st1 = st_selectedItems st) as Hsel1
    by (subst st1; by destruct st).
  assert (st_log st1 = st_log st) as Hlog1 by (subst st1; by destruct st).
  assert (st_dialogContent st1 = dialog_bulkDelete (selectedChats st)) as Hd1
    by (subst st1; by destruct st).
  unfold step. cbn [handler].
  rewrite (dialogConfirm_bulk_exec st1 _ Hd1), Hsel1.
  destruct (deleteSelectedItems_run st1 (st_selectedItems st) Hdb1 Hsel)
    as (_ & Hs & Hm & _).
  destruct (closed_cells (exec (deleteSelectedItems (st_selectedItems st)) st1))
    as [-> ->].
  split_and!; [apply dialog_after_close | exact Hs | exact Hm |].
  rewrite closed_log, <- Hlog1.
  by apply (bulk_delete_run_ids st1).
Qed.

Lemma bulk_request_and_confirm_witness :
  st_selectedItems ex_two_selected = ["c"; "a"]
  ∧ deleted_ids
      (drop (length (st_log ex_two_selected))
         (st_log (run ex_two_selected [ev_bulkDeleteClick; ev_dialogConfirm])))
    = ["c"; "a"]
  ∧ st_selectionMode (run ex_two_selected [ev_bulkDeleteClick; ev_dialogConfirm])
    = false.
Proof.
  destruct (bulk_request_and_confirm ex_two_selected)
    as (_ & _ & Hmode & Hids); [reflexivity | vm_compute; done |].
  split_and!; [reflexivity | exact Hids | exact Hmode].
Defined.
